(** * EHEIM Digital integration: REST client, polling coordinator,
      setup flow and switch entities

    A shallow embedding of [custom_components/eheim_digital]
    ([api_client.py], [coordinator.py], [config_flow.py], [switch.py])
    and the properties of its error handling, ordering and frame
    behaviour.

    Python objects are modelled as follows.
    - JSON documents are values of [pyval]; a JSON object is a finite map
      from strings to values.
    - Exceptions are the constructors of [exn]; the [isinstance] tests of
      the [except] clauses are boolean class predicates.
    - Coroutines are computations in a state-and-exception monad [M]:
      every [await] is sequential, so a coroutine is a function from the
      state before the call to the state after it together with either
      the returned value or the raised exception.
    - The status documents held by the coordinator are objects that the
      switch entities alias and mutate in place; they live in an object
      store ([heap]) and the snapshot maps a mac to a store location. *)

From Stdlib Require Import ZArith String Ascii List Lia.
From stdpp Require Import gmap strings list fin_maps.

Local Set Warnings "-register-all".
Local Open Scope string_scope.
Local Open Scope Z_scope.

(** ** Python values *)

(** The documents produced by [json.loads] and [response.text()]. JSON
    numbers are kept to the integers: the integration only tests and
    writes the integers 0 and 1. *)
Inductive pyval : Type :=
  | PNone
  | PBool (b : bool)
  | PInt (z : Z)
  | PStr (s : string)
  | PList (l : list pyval)
  | PDict (m : gmap string pyval).

(** [bool(v)]: Python truthiness, used by [not devices] and [is_on]. *)
Definition truthy (v : pyval) : bool :=
  match v with
  | PNone => false
  | PBool b => b
  | PInt z => negb (z =? 0)
  | PStr s => negb (String.eqb s "")
  | PList l => negb (Nat.eqb (length l) 0)
  | PDict m => negb (Nat.eqb (size m) 0)
  end.

(** ** Exceptions *)

Inductive exn : Type :=
  (* aiohttp *)
  | ClientError
  | ClientResponseError (status : Z)
  | ServerTimeoutError
  (* builtins *)
  | ConnectionError
  | TimeoutError
  | KeyError
  | TypeError
  | AttributeError
  | RuntimeError
  | JSONDecodeError
  (* api_client.py *)
  | EheimDigitalError
  | EheimDigitalConnectionError
  | EheimDigitalConnectionTimeout
  | EheimDigitalAuthError
  | EheimDigitalNotFound
  (* homeassistant.helpers.update_coordinator *)
  | UpdateFailed (cause : exn).

(** [isinstance(e, aiohttp.ClientError)]: [ClientResponseError] and
    [ServerTimeoutError] derive from [ClientError]. *)
Definition is_ClientError (e : exn) : bool :=
  match e with
  | ClientError | ClientResponseError _ | ServerTimeoutError => true
  | _ => false
  end.

(** [isinstance(e, ConnectionError)], the builtin class. *)
Definition is_ConnectionError (e : exn) : bool :=
  match e with
  | ConnectionError => true
  | _ => false
  end.

(** [isinstance(e, TimeoutError)]: [ServerTimeoutError] derives from it
    as well as from [ClientError]. *)
Definition is_TimeoutError (e : exn) : bool :=
  match e with
  | TimeoutError | ServerTimeoutError => true
  | _ => false
  end.

(** [isinstance(e, EheimDigitalError)]: the four specific client errors
    all derive from the base class. *)
Definition is_EheimDigitalError (e : exn) : bool :=
  match e with
  | EheimDigitalError
  | EheimDigitalConnectionError
  | EheimDigitalConnectionTimeout
  | EheimDigitalAuthError
  | EheimDigitalNotFound => true
  | _ => false
  end.

(** ** HTTP requests and responses *)

(** One call of [self._session.request(method, url, json=data,
    params=params)]. The url is [f"http://{host}/api/{endpoint}"]; it is
    kept as its two components. *)
Record Request : Type := mkRequest {
  req_method : string;
  req_host : pyval;
  req_endpoint : string;
  req_json : option pyval;
  req_params : option pyval
}.

Record Response : Type := mkResponse {
  status : Z;
  headers : gmap string string;
  body : string
}.

(** What the session does with a request: it hands back a response or
    raises at the transport level. *)
Inductive Outcome : Type :=
  | Responds (r : Response)
  | Fails (e : exn).

(** ** Devices *)

(** Modelled from the spec: [devices.py] is not among the sources.
    [EheimDevice(response, ip)] reads the known fields of one userdata
    document by fixed key names into a typed record, a missing or
    ill-typed field taking a default, and passes through the address
    given by the caller. *)
Record EheimDevice : Type := mkDevice {
  title : string;
  mac : string;
  ip : pyval;
  name : string;
  aq_name : string;
  mode : string;
  version : string;
  model : string;
  device_group : string
}.

Definition field (response : pyval) (k : string) : string :=
  match response with
  | PDict m => match m !! k with Some (PStr s) => s | _ => "" end
  | _ => ""
  end.

Definition new_EheimDevice (response : pyval) (ip : pyval) : EheimDevice :=
  {| title := field response "title";
     mac := field response "mac";
     ip := ip;
     name := field response "name";
     aq_name := field response "aq_name";
     mode := field response "mode";
     version := field response "version";
     model := field response "model";
     device_group := field response "device_group" |}.

(** ** Program state *)

Record EheimDigitalAPIClient : Type := mkClient {
  _master_host_ip : pyval
}.

(** The attributes of [EheimDigitalDataUpdateCoordinator]. [data] is the
    published snapshot: it maps a mac to the store location of that
    device's status document. *)
Record Coordinator : Type := mkCoordinator {
  api_client : EheimDigitalAPIClient;
  devices : list EheimDevice;
  data : gmap string nat;
  last_update_success : bool
}.

(** [sent] is the log of the requests issued so far, [heap] the object
    store (a location is an index; nothing is ever freed), [ha_writes]
    the log of [async_write_ha_state] calls, each recorded as the mac and
    the description key of the entity that signalled. *)
Record World : Type := mkWorld {
  sent : list Request;
  heap : list pyval;
  coordinator : Coordinator;
  ha_writes : list (string * string)
}.

Definition set_sent (f : list Request → list Request) (w : World) : World :=
  {| sent := f (sent w); heap := heap w;
     coordinator := coordinator w; ha_writes := ha_writes w |}.

Definition set_heap (f : list pyval → list pyval) (w : World) : World :=
  {| sent := sent w; heap := f (heap w);
     coordinator := coordinator w; ha_writes := ha_writes w |}.

Definition set_coordinator (f : Coordinator → Coordinator) (w : World)
    : World :=
  {| sent := sent w; heap := heap w;
     coordinator := f (coordinator w); ha_writes := ha_writes w |}.

Definition set_ha_writes
    (f : list (string * string) → list (string * string)) (w : World)
    : World :=
  {| sent := sent w; heap := heap w;
     coordinator := coordinator w; ha_writes := f (ha_writes w) |}.

Definition set_last_update_success (b : bool) (c : Coordinator) : Coordinator :=
  {| api_client := api_client c; devices := devices c;
     data := data c; last_update_success := b |}.

(** ** The state-and-exception monad *)

Inductive result (A : Type) : Type :=
  | Ok (a : A)
  | Raised (e : exn).
Arguments Ok {A} a.
Arguments Raised {A} e.

(** A coroutine over a state [S]: the client and the coordinator run
    over the [World], a method of an entity over the world together with
    the entity's own attributes. *)
Definition M (S A : Type) : Type := S → S * result A.

Definition ret {S A} (a : A) : M S A := fun st => (st, Ok a).

Definition raise {S A} (e : exn) : M S A := fun st => (st, Raised e).

Definition bind {S A B} (m : M S A) (k : A → M S B) : M S B :=
  fun st =>
    match m st with
    | (st', Ok a) => k a st'
    | (st', Raised e) => (st', Raised e)
    end.

Declare Scope py_scope.
Delimit Scope py_scope with py.
Notation "'let*' x ':=' m 'in' k" := (bind m (fun x => k))
  (at level 10, x name, m at level 100, k at level 200) : py_scope.
Notation "m ';;' k" := (bind m (fun _ => k))
  (at level 100, k at level 200, right associativity) : py_scope.
Local Open Scope py_scope.

(** [try: body except C1: h1 except C2: h2 ...]: the first clause whose
    class test accepts the exception handles it; an exception no clause
    accepts propagates. The state changes made before the raise stay. *)
Fixpoint handle {S A} (clauses : list ((exn → bool) * (exn → M S A)))
    (e : exn) : M S A :=
  match clauses with
  | [] => raise e
  | (isinstance, handler) :: rest =>
      if isinstance e then handler e else handle rest e
  end.

Definition try_except {S A} (body : M S A)
    (clauses : list ((exn → bool) * (exn → M S A))) : M S A :=
  fun st =>
    match body st with
    | (st', Ok a) => (st', Ok a)
    | (st', Raised e) => handle clauses e st'
    end.

Definition get_state {S} : M S S := fun st => (st, Ok st).

Definition modify {S} (f : S → S) : M S unit := fun st => (f st, Ok tt).

(** ** Python container operations *)

(** [d[k]] for a string key. *)
Definition subscript {S} (d : pyval) (k : string) : M S pyval :=
  match d with
  | PDict m => match m !! k with Some v => ret v | None => raise KeyError end
  | _ => raise TypeError
  end.

(** [for x in v]: the items a [for] loop visits. *)
Definition iterate {S} (v : pyval) : M S (list pyval) :=
  match v with
  | PList l => ret l
  | PDict m => ret (PStr <$> (map_to_list m).*1)
  | PStr s =>
      ret ((fun c => PStr (String c EmptyString)) <$> list_ascii_of_string s)
  | _ => raise TypeError
  end.

(** [d[k] = v] on a value: only a dict accepts a string key. *)
Definition setitem (d : pyval) (k : string) (v : pyval) : result pyval :=
  match d with
  | PDict m => Ok (PDict (<[k := v]> m))
  | _ => Raised TypeError
  end.

(** [d.get(k)]. *)
Definition dict_get (d : pyval) (k : string) : result pyval :=
  match d with
  | PDict m => Ok (default PNone (m !! k))
  | _ => Raised AttributeError
  end.

(** [bytes.strip()]: the ASCII whitespace that is cut from both ends. *)
Definition is_space (c : ascii) : bool :=
  match nat_of_ascii c with
  | 9%nat | 10%nat | 11%nat | 12%nat | 13%nat | 32%nat => true
  | _ => false
  end.

Fixpoint lstrip (s : string) : string :=
  match s with
  | EmptyString => EmptyString
  | String c s' => if is_space c then lstrip s' else s
  end.

Fixpoint rstrip (s : string) : string :=
  match s with
  | EmptyString => EmptyString
  | String c s' =>
      match rstrip s' with
      | EmptyString => if is_space c then EmptyString else String c EmptyString
      | r => String c r
      end
  end.

Definition strip (s : string) : string := rstrip (lstrip s).

(** ** The environment *)

(** What the program is run against. [hub] is the hub and the network:
    the outcome of a request given the requests issued before it.
    [json_loads] is [json.loads], [None] standing for [JSONDecodeError].
    [DEVICE_ENDPOINTS] is the static version-to-endpoint table of
    [const.py], which is not among the sources. *)
Record Env : Type := mkEnv {
  hub : list Request → Request → Outcome;
  json_loads : string → option pyval;
  DEVICE_ENDPOINTS : gmap string string
}.

(** ** api_client.py *)

(** [async with self._session.request(...) as response]. *)
Definition session_request (env : Env) (req : Request) : M World Response :=
  fun st =>
    (set_sent (fun l => (l ++ [req])%list) st,
     match hub env (sent st) req with
     | Responds r => Ok r
     | Fails e => Raised e
     end).

(** aiohttp's [response.raise_for_status()]: raises
    [ClientResponseError] when the status is 400 or above. *)
Definition raise_for_status (response : Response) : M World unit :=
  if 400 <=? status response
  then raise (ClientResponseError (status response))
  else ret tt.

(** [await response.text()]. *)
Definition response_text (response : Response) : M World string :=
  ret (body response).

(** [json.loads(text)]. *)
Definition loads (env : Env) (text : string) : M World pyval :=
  match json_loads env text with
  | Some v => ret v
  | None => raise JSONDecodeError
  end.

(** aiohttp's [await response.json()] on a response labelled
    [application/json]: the body is stripped; an empty one gives [None],
    any other is handed to the decoder. *)
Definition response_json (env : Env) (response : Response) : M World pyval :=
  match strip (body response) with
  | EmptyString => ret PNone
  | stripped => loads env stripped
  end.

Definition _send_request (env : Env) (method : string) (host : pyval)
    (endpoint : string) (data params : option pyval) : M World pyval :=
  try_except
    (let* response :=
       session_request env (mkRequest method host endpoint data params) in
     raise_for_status response;;
     if status response =? 404 then raise EheimDigitalNotFound
     else if (status response =? 401) || (status response =? 403)
     then raise EheimDigitalAuthError
     else if status response =? 200 then
       let content_type := default "" (headers response !! "Content-Type") in
       if String.eqb content_type "text/json" then
         let* text := response_text response in
         loads env text
       else if String.eqb content_type "application/json" then
         response_json env response
       else
         let* text := response_text response in
         ret (PStr text)
     else ret PNone)
    [ (is_ClientError, fun _ => raise EheimDigitalConnectionError);
      (is_ConnectionError, fun _ => raise EheimDigitalConnectionError);
      (is_TimeoutError, fun _ => raise EheimDigitalConnectionTimeout) ].

Definition get (env : Env) (host : pyval) (endpoint : string)
    (params : option pyval) : M World pyval :=
  _send_request env "GET" host endpoint None params.

Definition post (env : Env) (host : pyval) (endpoint : string)
    (data : pyval) : M World pyval :=
  _send_request env "POST" host endpoint (Some data) None.

(** The first loop of [fetch_devices]: one [userdata] request per
    address, the device appended to [devices]. *)
Fixpoint fetch_devices_loop (env : Env) (ips : list pyval)
    (devices : list EheimDevice) : M World (list EheimDevice) :=
  match ips with
  | [] => ret devices
  | ip :: rest =>
      let* response := get env ip "userdata" None in
      let device := new_EheimDevice response ip in
      fetch_devices_loop env rest (devices ++ [device])%list
  end.

Definition fetch_devices (env : Env) (self : EheimDigitalAPIClient)
    : M World (list EheimDevice) :=
  let* device_list := get env (_master_host_ip self) "devicelist" None in
  let* client_ip_list := subscript device_list "clientIPList" in
  let* ips := iterate client_ip_list in
  fetch_devices_loop env ips [].

Definition get_device_data (env : Env) (self : EheimDigitalAPIClient)
    (device : EheimDevice) : M World pyval :=
  match DEVICE_ENDPOINTS env !! version device with
  | None => raise KeyError
  | Some endpoint =>
      let params := PDict {[ "to" := PStr (mac device) ]} in
      get env (_master_host_ip self) endpoint (Some params)
  end.

Definition active_payload (device : EheimDevice) (state : bool) : pyval :=
  PDict (<[ "to" := PStr (mac device) ]>
         (<[ "active" := PInt (if state then 1 else 0) ]> ∅)).

Definition set_phcontrol_state (env : Env) (self : EheimDigitalAPIClient)
    (device : EheimDevice) (state : bool) : M World unit :=
  post env (_master_host_ip self) "phcontrol/active"
    (active_payload device state);;
  ret tt.

Definition set_filter_state (env : Env) (self : EheimDigitalAPIClient)
    (device : EheimDevice) (state : bool) : M World unit :=
  post env (_master_host_ip self) "professionel5e/active"
    (active_payload device state);;
  ret tt.

(** ** coordinator.py *)

(** A document returned by the client becomes an object of the store
    when the coordinator keeps a reference to it. *)
Definition alloc (v : pyval) : M World nat :=
  fun st => (set_heap (fun h => (h ++ [v])%list) st, Ok (length (heap st))).

(** The loop of [_async_update_data]:
    [all_device_data[device.mac] = device_data] for each device in turn. *)
Fixpoint update_loop (env : Env) (client : EheimDigitalAPIClient)
    (devices : list EheimDevice) (all_device_data : gmap string nat)
    : M World (gmap string nat) :=
  match devices with
  | [] => ret all_device_data
  | device :: rest =>
      let* device_data := get_device_data env client device in
      let* l := alloc device_data in
      update_loop env client rest (<[ mac device := l ]> all_device_data)
  end.

Definition _async_update_data (env : Env) : M World (gmap string nat) :=
  let* st := get_state in
  let self := coordinator st in
  try_except
    (update_loop env (api_client self) (devices self) ∅)
    [ (is_EheimDigitalError, fun error =>
         modify (set_coordinator (set_last_update_success false));;
         raise (UpdateFailed error)) ].

(** ** config_flow.py *)

Inductive FlowResult : Type :=
  | CreateEntry (entry_title : pyval) (entry_data : gmap string pyval)
  | ShowForm (step_id : string) (errors : gmap string string).

Definition CONF_IP_ADDRESS : string := "ip_address".

(** A fresh client is made for [host]; its session talks to the same
    network. [close()] has no effect that the model keeps. *)
Definition _test_host_connection (env : Env) (host : pyval) : M World unit :=
  let* devices := get env host "devicelist" None in
  if negb (truthy devices) then raise EheimDigitalError
  else ret tt.

(** The [try] block either returns the created entry or, when the
    handler ran, falls through to the form with [errors] filled in. *)
Definition async_step_user (env : Env)
    (user_input : option (gmap string pyval)) : M World FlowResult :=
  match user_input with
  | None => ret (ShowForm "user" ∅)
  | Some input =>
      let* returned :=
        try_except
          (let* host := subscript (PDict input) CONF_IP_ADDRESS in
           _test_host_connection env host;;
           let* entry_title := subscript (PDict input) CONF_IP_ADDRESS in
           ret (Some (CreateEntry entry_title input)))
          [ (is_EheimDigitalError, fun _ => ret None) ] in
      match returned with
      | Some flow_result => ret flow_result
      | None => ret (ShowForm "user" {[ "base" := "communication_error" ]})
      end
  end.

(** ** switch.py *)

Record EheimSwitchDescription : Type := mkDescription {
  key : string;
  state_key : string;
  set_state_fn : Env → EheimDevice → Coordinator → bool → M World unit
}.

Definition SWITCH_DESCRIPTIONS : list EheimSwitchDescription :=
  [ {| key := "filter_is_active";
       state_key := "filterActive";
       set_state_fn := fun env device coordinator state =>
         set_filter_state env (api_client coordinator) device state |};
    {| key := "ph_control_is_active";
       state_key := "active";
       set_state_fn := fun env device coordinator state =>
         set_phcontrol_state env (api_client coordinator) device state |} ].

Definition SWITCH_SENSOR_GROUPS : gmap string (list string) :=
  <[ "ph_control" := ["ph_control_is_active"] ]>
  (<[ "filter" := ["filter_is_active"] ]> ∅).

(** The attributes of an [EheimSwitch]. [_switch_data] is a reference to
    a status document of the store, not a copy of it. *)
Record EheimSwitch : Type := mkSwitch {
  entity_description : EheimSwitchDescription;
  _switch_data : nat;
  _device : EheimDevice;
  _attr_available : bool
}.

Definition set_switch_data (l : nat) (e : EheimSwitch) : EheimSwitch :=
  {| entity_description := entity_description e; _switch_data := l;
     _device := _device e; _attr_available := _attr_available e |}.

Definition set_attr_available (b : bool) (e : EheimSwitch) : EheimSwitch :=
  {| entity_description := entity_description e;
     _switch_data := _switch_data e;
     _device := _device e; _attr_available := b |}.

(** The state a method of a switch runs over: the world and the
    attributes of [self]. *)
Definition Entity : Type := World * EheimSwitch.

(** A coroutine of the world, awaited from a method. *)
Definition world {A} (m : M World A) : M Entity A :=
  fun st =>
    match m st.1 with
    | (w', r) => ((w', st.2), r)
    end.

(** Reading and assigning the attributes of [self]. *)
Definition self : M Entity EheimSwitch := fun st => (st, Ok st.2).

Definition set_self (f : EheimSwitch → EheimSwitch) : M Entity unit :=
  fun st => ((st.1, f st.2), Ok tt).

(** [coordinator.data[mac]]. *)
Definition coordinator_data (mac : string) : M World nat :=
  let* w := get_state in
  match data (coordinator w) !! mac with
  | Some l => ret l
  | None => raise KeyError
  end.

(** [EheimSwitch.__init__]. *)
Definition new_EheimSwitch (description : EheimSwitchDescription)
    (device : EheimDevice) : M World EheimSwitch :=
  let* l := coordinator_data (mac device) in
  ret {| entity_description := description; _switch_data := l;
         _device := device; _attr_available := true |}.

(** The object behind a reference. No reference dangles, since nothing
    is freed; the store answers [None] for one that would. *)
Definition deref (l : nat) : M World pyval :=
  let* w := get_state in
  ret (default PNone (heap w !! l)).

(** [obj[k] = v] on the object at [l], in place. *)
Definition setitem_at (l : nat) (k : string) (v : pyval) : M World unit :=
  let* obj := deref l in
  match setitem obj k v with
  | Ok obj' => modify (set_heap (fun h => <[ l := obj' ]> h))
  | Raised e => raise e
  end.

(** [self.async_write_ha_state()]: the state-changed signal. *)
Definition async_write_ha_state : M Entity unit :=
  let* me := self in
  world (modify (set_ha_writes (fun log =>
    (log ++ [(mac (_device me), key (entity_description me))])%list))).

Definition is_on : M Entity bool :=
  let* me := self in
  let* obj := world (deref (_switch_data me)) in
  match dict_get obj (state_key (entity_description me)) with
  | Ok v => ret (truthy v)
  | Raised e => raise e
  end.

(** The command of a switch: [self.entity_description.set_state_fn(
    self._device, self.coordinator, state)]. *)
Definition command (env : Env) (state : bool) : M Entity unit :=
  let* me := self in
  let* w := world get_state in
  world (set_state_fn (entity_description me) env (_device me)
           (coordinator w) state).

(** [self._switch_data[self.entity_description.state_key] = v]. *)
Definition patch_state_key (v : pyval) : M Entity unit :=
  let* me := self in
  world (setitem_at (_switch_data me) (state_key (entity_description me)) v).

Definition async_turn_on (env : Env) : M Entity unit :=
  command env true;;
  patch_state_key (PInt 1);;
  async_write_ha_state.

Definition async_turn_off (env : Env) : M Entity unit :=
  try_except
    (command env false;;
     patch_state_key (PInt 0);;
     async_write_ha_state)
    [ (is_EheimDigitalError, fun error =>
         set_self (set_attr_available false);;
         async_write_ha_state) ].

Definition _handle_coordinator_update : M Entity unit :=
  let* me := self in
  let* l := world (coordinator_data (mac (_device me))) in
  set_self (set_switch_data l);;
  async_write_ha_state.

(** The switches [async_setup_entry] makes for one device. *)
Fixpoint switches_for (device : EheimDevice)
    (switch_keys_for_group : list string)
    (descriptions : list EheimSwitchDescription)
    : M World (list EheimSwitch) :=
  match descriptions with
  | [] => ret []
  | description :: rest =>
      if bool_decide (key description ∈ switch_keys_for_group) then
        let* switch := new_EheimSwitch description device in
        let* more := switches_for device switch_keys_for_group rest in
        ret (switch :: more)
      else switches_for device switch_keys_for_group rest
  end.

Fixpoint setup_loop (devices : list EheimDevice)
    : M World (list EheimSwitch) :=
  match devices with
  | [] => ret []
  | device :: rest =>
      let switch_keys_for_group :=
        default [] (SWITCH_SENSOR_GROUPS !! device_group device) in
      let* switches :=
        switches_for device switch_keys_for_group SWITCH_DESCRIPTIONS in
      let* more := setup_loop rest in
      ret (switches ++ more)%list
  end.

Definition async_setup_entry : M World (list EheimSwitch) :=
  let* w := get_state in
  setup_loop (devices (coordinator w)).

(** ** Reading the state *)

(** The status document a snapshot holds for a mac. *)
Definition entry (snap : gmap string nat) (w : World) (m : string)
    : option pyval :=
  match snap !! m with
  | Some l => heap w !! l
  | None => None
  end.

(** The value under a key of a document that is a mapping. *)
Definition item (obj : option pyval) (k : string) : option pyval :=
  match obj with
  | Some (PDict m) => m !! k
  | _ => None
  end.

(** The device made from the answer of one address. *)
Definition fetched_from (d : EheimDevice) (address : pyval) : Prop :=
  ip d = address ∧ ∃ response, d = new_EheimDevice response address.


(** The request a switch command issues. *)
Definition command_request (client : EheimDigitalAPIClient)
    (endpoint : string) (device : EheimDevice) (state : bool) : Request :=
  {| req_method := "POST"; req_host := _master_host_ip client;
     req_endpoint := endpoint;
     req_json := Some (active_payload device state);
     req_params := None |}.

(** The groups for which [SWITCH_SENSOR_GROUPS] lists a switch. *)
Definition has_switch (device : EheimDevice) : bool :=
  bool_decide (device_group device = "filter") ||
  bool_decide (device_group device = "ph_control").

(** A call that talks to the hub and does nothing else: the store, the
    coordinator and the state-changed log are as before and the request
    log has only grown. *)
Definition only_sent (w w' : World) : Prop :=
  heap w' = heap w ∧ coordinator w' = coordinator w ∧
  ha_writes w' = ha_writes w ∧ ∃ reqs, sent w' = (sent w ++ reqs)%list.

(** What a poll cycle may do to the world before it ends: issue
    requests and put new documents in the store. The documents already
    there, the coordinator and the state-changed log are as before. *)
Definition extends (w w' : World) : Prop :=
  (∃ new, heap w' = (heap w ++ new)%list) ∧
  coordinator w' = coordinator w ∧
  ha_writes w' = ha_writes w ∧
  ∃ reqs, sent w' = (sent w ++ reqs)%list.

(** The status document a switch points at is the snapshot entry of no
    device but its own. *)
Definition exclusive (w : World) (e : EheimSwitch) : Prop :=
  ∀ m, data (coordinator w) !! m = Some (_switch_data e) →
       m = mac (_device e).

(** No two macs of a snapshot share a status document. *)
Definition separate (snap : gmap string nat) : Prop :=
  ∀ m1 m2 l, snap !! m1 = Some l → snap !! m2 = Some l → m1 = m2.

(** What the decoding property needs of [json.loads]: the empty text is
    not a document, and the whitespace at both ends of a document does
    not change what it decodes to. *)
Definition ignores_outer_whitespace (env : Env) : Prop :=
  json_loads env "" = None ∧
  ∀ s v, json_loads env s = Some v → json_loads env (strip s) = Some v.

(** ** Concrete environments *)

(** A hub that answers the n-th request with the n-th outcome of a
    script, and lets every request after the script fail to connect. *)
Definition scripted (script : list Outcome) : list Request → Request → Outcome :=
  fun sent _ => default (Fails ClientError) (script !! length sent).

(** The double quote, and a JSON string literal without escapes. *)
Definition dquote : string := String (ascii_of_nat 34) EmptyString.

Definition quoted (s : string) : string := dquote +:+ s +:+ dquote.

(** [{"clientIPList": ["10.0.0.5", "10.0.0.6"]}] *)
Definition devicelist_text : string :=
  "{" +:+ quoted "clientIPList" +:+ ": [" +:+ quoted "10.0.0.5" +:+ ", "
      +:+ quoted "10.0.0.6" +:+ "]}".

Definition devicelist_document : pyval :=
  PDict {[ "clientIPList" := PList [PStr "10.0.0.5"; PStr "10.0.0.6"] ]}.

(** [{"mac": <m>, "version": <v>}] *)
Definition userdata_text (m v : string) : string :=
  "{" +:+ quoted "mac" +:+ ": " +:+ quoted m +:+ ", "
      +:+ quoted "version" +:+ ": " +:+ quoted v +:+ "}".

Definition userdata_document (m v : string) : pyval :=
  PDict (<[ "mac" := PStr m ]> (<[ "version" := PStr v ]> ∅)).

(** [{"filterActive": 1}] *)
Definition status_text : string := "{" +:+ quoted "filterActive" +:+ ": 1}".

Definition status_document : pyval := PDict {[ "filterActive" := PInt 1 ]}.

(** The JSON texts of the examples and what they decode to. *)
Definition example_documents : list (string * pyval) :=
  [ ("null", PNone); ("true", PBool true); ("false", PBool false);
    ("0", PInt 0); ("1", PInt 1); ("[]", PList []); ("{}", PDict ∅);
    (devicelist_text, devicelist_document);
    (userdata_text "AA:BB:CC:DD:EE:FF" "v1",
     userdata_document "AA:BB:CC:DD:EE:FF" "v1");
    (userdata_text "11:22:33:44:55:66" "v2",
     userdata_document "11:22:33:44:55:66" "v2");
    (status_text, status_document) ].

(** A decoder for those texts: the text is stripped and looked up; any
    other text is not a document. *)
Definition literal_loads (s : string) : option pyval :=
  snd <$> List.find (fun p => String.eqb p.1 (strip s)) example_documents.

Definition json_response (code : Z) (content_type text : string) : Outcome :=
  Responds (mkResponse code {[ "Content-Type" := content_type ]} text).

Definition example_env (script : list Outcome) : Env :=
  {| hub := scripted script;
     json_loads := literal_loads;
     DEVICE_ENDPOINTS :=
       <[ "v1" := "professionel5e" ]> (<[ "v2" := "phcontrol" ]> ∅) |}.

Definition example_master : EheimDigitalAPIClient :=
  {| _master_host_ip := PStr "10.0.0.1" |}.

Definition example_device (m v : string) (address : string) : EheimDevice :=
  {| title := ""; mac := m; ip := PStr address; name := ""; aq_name := "";
     mode := ""; version := v; model := "filter"; device_group := "filter" |}.

Definition example_world (ds : list EheimDevice) (store : list pyval)
    (snap : gmap string nat) : World :=
  {| sent := []; heap := store;
     coordinator := {| api_client := example_master; devices := ds;
                       data := snap; last_update_success := true |};
     ha_writes := [] |}.

Definition filter_switch (d : EheimDevice) (l : nat) : EheimSwitch :=
  {| entity_description :=
       {| key := "filter_is_active";
          state_key := "filterActive";
          set_state_fn := fun env device coordinator state =>
            set_filter_state env (api_client coordinator) device state |};
     _switch_data := l; _device := d; _attr_available := true |}.

(** [{"clientIPList": []}], and a decoder that knows this text only. *)
Definition no_devices_text : string :=
  "{" +:+ quoted "clientIPList" +:+ ": []}".

Definition no_devices_loads (s : string) : option pyval :=
  if String.eqb (strip s) no_devices_text
  then Some (PDict {[ "clientIPList" := PList [] ]})
  else None.

(** * Properties *)

(** ** The client *)

(** A request changes nothing of the world but the request log, which
    gains exactly that request. *)
Lemma send_request_world env method host endpoint data params w :
  (_send_request env method host endpoint data params w).1 =
  set_sent (fun l => (l ++ [mkRequest method host endpoint data params])%list) w.
Proof.
  unfold _send_request, try_except, bind, session_request, raise_for_status.
  destruct (hub env (sent w) _) as [r|e]; simpl.
  - unfold response_json, response_text, loads, bind, ret, raise.
    repeat (case_match; simplify_eq/=; try done).
  - unfold raise. repeat (case_match; simplify_eq/=; try done).
Qed.

Lemma send_request_only_sent env method host endpoint data params w :
  only_sent w (_send_request env method host endpoint data params w).1.
Proof.
  rewrite send_request_world. unfold only_sent; simpl.
  repeat split; eauto.
Qed.

(** Every status of 400 and above leaves [_send_request] through
    [raise_for_status] and the [ClientError] clause. *)
Lemma send_request_error_status env method host endpoint data params w r :
  hub env (sent w) (mkRequest method host endpoint data params) = Responds r →
  400 <= status r →
  (_send_request env method host endpoint data params w).2 =
  Raised EheimDigitalConnectionError.
Proof.
  intros Hhub Hge.
  unfold _send_request, try_except, bind, session_request, raise_for_status.
  rewrite Hhub; simpl.
  destruct (400 <=? status r) eqn:E; [reflexivity | lia].
Qed.

(** C1 (as the code behaves): a 404 response does not yield
    [EheimDigitalNotFound]. [raise_for_status] runs before the status
    tests, raises [ClientResponseError], and the [ClientError] clause
    turns that into [EheimDigitalConnectionError]; the tests for 404, 401
    and 403 are never reached. *)
Theorem not_found_status_yields_connection_error :
  ∀ decoder table hdrs text method host endpoint data params w,
    let env := {| hub := fun _ _ => Responds (mkResponse 404 hdrs text);
                  json_loads := decoder;
                  DEVICE_ENDPOINTS := table |} in
    (_send_request env method host endpoint data params w).2 =
      Raised EheimDigitalConnectionError ∧
    (_send_request env method host endpoint data params w).2 ≠
      Raised EheimDigitalNotFound.
Proof.
  intros. split.
  - apply (send_request_error_status env) with (r := mkResponse 404 hdrs text);
      [reflexivity | simpl; lia].
  - rewrite (send_request_error_status env _ _ _ _ _ _ (mkResponse 404 hdrs text));
      [discriminate | reflexivity | simpl; lia].
Qed.

(** C5: a 200 response whose body is a JSON document decodes to the same
    document under the content type [application/json] and under
    [text/json]; under any other content type the result is the raw
    text. *)
Theorem json_decoded_alike_for_both_content_types
    env method host endpoint data params w hdrs text v :
  ignores_outer_whitespace env →
  json_loads env text = Some v →
  hub env (sent w) (mkRequest method host endpoint data params) =
    Responds (mkResponse 200 hdrs text) →
  let content_type := default "" (hdrs !! "Content-Type") in
  let returned := (_send_request env method host endpoint data params w).2 in
  (content_type = "application/json" → returned = Ok v) ∧
  (content_type = "text/json" → returned = Ok v) ∧
  (content_type ≠ "application/json" → content_type ≠ "text/json" →
   returned = Ok (PStr text)).
Proof.
  intros [Hempty Hstrip] Hv Hhub content_type returned.
  subst returned.
  unfold _send_request, try_except, bind, session_request, raise_for_status.
  rewrite Hhub; simpl. fold content_type.
  repeat split.
  - intros ->. simpl.
    unfold response_json; simpl.
    pose proof (Hstrip _ _ Hv) as Hs.
    destruct (strip text) eqn:E; [congruence|].
    unfold loads. rewrite Hs. reflexivity.
  - intros ->. simpl.
    unfold response_text, loads, bind, ret. rewrite Hv. reflexivity.
  - intros Hne1 Hne2.
    destruct (String.eqb_spec content_type "text/json") as [|_]; [done|].
    destruct (String.eqb_spec content_type "application/json") as [|_]; [done|].
    reflexivity.
Qed.

(** C7: for a version of the table, [get_device_data] issues exactly one
    request, a GET to the master host at the endpoint of that version
    with the mac as the [to] parameter, whatever the device's own
    address; for a version outside the table it raises [KeyError] without
    issuing a request, and [KeyError] is none of the client's errors. *)
Theorem get_device_data_asks_master env self device w :
  (∀ endpoint,
     DEVICE_ENDPOINTS env !! version device = Some endpoint →
     sent (get_device_data env self device w).1 =
       (sent w ++
        [ {| req_method := "GET";
             req_host := _master_host_ip self;
             req_endpoint := endpoint;
             req_json := None;
             req_params := Some (PDict {[ "to" := PStr (mac device) ]}) |} ])%list) ∧
  (DEVICE_ENDPOINTS env !! version device = None →
     get_device_data env self device w = (w, Raised KeyError)) ∧
  is_EheimDigitalError KeyError = false ∧
  is_ClientError KeyError = false ∧
  is_ConnectionError KeyError = false ∧
  is_TimeoutError KeyError = false.
Proof.
  repeat split.
  - intros endpoint Hep. unfold get_device_data, get. rewrite Hep.
    rewrite send_request_world. reflexivity.
  - intros Hnone. unfold get_device_data. rewrite Hnone. reflexivity.
Qed.

(** ** fetch_devices *)

Lemma fetch_devices_loop_app env pre post acc w :
  fetch_devices_loop env (pre ++ post) acc w =
  match fetch_devices_loop env pre acc w with
  | (w1, Ok ds) => fetch_devices_loop env post ds w1
  | (w1, Raised e) => (w1, Raised e)
  end.
Proof.
  revert acc w. induction pre as [|a pre IH]; intros acc w; simpl.
  - reflexivity.
  - unfold bind.
    destruct (get env a "userdata" None w) as [w1 [response|e]];
      [apply IH | reflexivity].
Qed.

(** A run of the loop that returns has appended one device per address,
    in the order of the addresses, after one [userdata] request to each. *)
Lemma fetch_devices_loop_returns env ips acc w w' devs :
  fetch_devices_loop env ips acc w = (w', Ok devs) →
  ∃ ds, devs = (acc ++ ds)%list ∧ Forall2 fetched_from ds ips ∧
        sent w' = (sent w ++
          ((fun a => mkRequest "GET" a "userdata" None None) <$> ips))%list.
Proof.
  revert acc w. induction ips as [|a ips IH]; intros acc w; simpl.
  - intros [= <- <-]. exists []. rewrite !app_nil_r. auto.
  - unfold bind.
    destruct (get env a "userdata" None w) as [w1 [response|e]] eqn:Hget;
      [|discriminate].
    intros Hloop. destruct (IH _ _ Hloop) as (ds & -> & Hall & Hsent).
    exists (new_EheimDevice response a :: ds). split; [|split].
    + by rewrite <- app_assoc.
    + constructor; [|done]. split; [done|]. by exists response.
    + rewrite Hsent.
      assert (w1 = (get env a "userdata" None w).1) as -> by (by rewrite Hget).
      unfold get. rewrite send_request_world. simpl.
      by rewrite <- app_assoc.
Qed.

(** The loop stops at the first address whose fetch raises, with that
    exception and no list. *)
Lemma fetch_devices_loop_raises env pre a post acc w w1 ds w2 e :
  fetch_devices_loop env pre acc w = (w1, Ok ds) →
  get env a "userdata" None w1 = (w2, Raised e) →
  fetch_devices_loop env (pre ++ a :: post) acc w = (w2, Raised e).
Proof.
  intros Hpre Hget. rewrite fetch_devices_loop_app, Hpre. simpl.
  unfold bind. by rewrite Hget.
Qed.

(** Either the loop returns, or there is a first address whose fetch
    raises. *)
Lemma fetch_devices_loop_cases env ips acc w :
  (∃ w' devs, fetch_devices_loop env ips acc w = (w', Ok devs)) ∨
  (∃ pre a post w1 ds w2 e,
     ips = (pre ++ a :: post)%list ∧
     fetch_devices_loop env pre acc w = (w1, Ok ds) ∧
     get env a "userdata" None w1 = (w2, Raised e)).
Proof.
  revert acc w. induction ips as [|a ips IH]; intros acc w.
  - left. by exists w, acc.
  - destruct (get env a "userdata" None w) as [w1 [response|e]] eqn:Hget.
    + destruct (IH (acc ++ [new_EheimDevice response a])%list w1)
        as [(w' & devs & Hok)|(pre & b & post & w2 & ds & w3 & e & -> & Hpre & Hb)].
      * left. exists w', devs. simpl. unfold bind. by rewrite Hget.
      * right. exists (a :: pre), b, post, w2, ds, w3, e.
        split; [done|]. split; [|done].
        simpl. unfold bind. by rewrite Hget.
    + right. exists [], a, ips, w, acc, w1, e. by repeat split.
Qed.

(** C4: once the device list has been fetched, [fetch_devices] either
    returns one device per address of [clientIPList], in the order of the
    list and each carrying the address its data was requested from, or
    raises the exception of the first [userdata] fetch that failed and
    returns no list at all; it returns whenever no fetch fails. *)
Theorem fetch_devices_in_order_or_nothing
    env self w w0 device_list client_ip_list ips :
  get env (_master_host_ip self) "devicelist" None w = (w0, Ok device_list) →
  subscript device_list "clientIPList" w0 = (w0, Ok client_ip_list) →
  iterate client_ip_list w0 = (w0, Ok ips) →
  (∀ w' devs,
     fetch_devices env self w = (w', Ok devs) →
     ip <$> devs = ips ∧ Forall2 fetched_from devs ips ∧
     sent w' = (sent w0 ++
       ((fun a => mkRequest "GET" a "userdata" None None) <$> ips))%list) ∧
  (∀ pre a post w1 ds w2 e,
     ips = (pre ++ a :: post)%list →
     fetch_devices_loop env pre [] w0 = (w1, Ok ds) →
     get env a "userdata" None w1 = (w2, Raised e) →
     fetch_devices env self w = (w2, Raised e)) ∧
  ((∃ w' devs, fetch_devices env self w = (w', Ok devs)) ∨
   (∃ pre a post w1 ds w2 e,
      ips = (pre ++ a :: post)%list ∧
      fetch_devices_loop env pre [] w0 = (w1, Ok ds) ∧
      get env a "userdata" None w1 = (w2, Raised e))).
Proof.
  intros Hlist Hsub Hiter.
  assert (fetch_devices env self w = fetch_devices_loop env ips [] w0) as Hrun.
  { unfold fetch_devices, bind. by rewrite Hlist, Hsub, Hiter. }
  rewrite Hrun. split; [|split].
  - intros w' devs Hloop.
    destruct (fetch_devices_loop_returns _ _ _ _ _ _ Hloop)
      as (ds & -> & Hall & Hsent).
    simpl. split; [|done].
    clear -Hall. induction Hall as [|d a ds ips [Hip _] _ IH]; [done|].
    rewrite fmap_cons, Hip. f_equal. exact IH.
  - intros pre a post w1 ds w2 e -> Hpre Hget.
    by apply fetch_devices_loop_raises with (w1 := w1) (ds := ds).
  - apply fetch_devices_loop_cases.
Qed.

(** ** The poll cycle *)

Lemma get_device_data_only_sent env client d w :
  only_sent w (get_device_data env client d w).1.
Proof.
  unfold get_device_data. destruct (DEVICE_ENDPOINTS env !! version d).
  - apply send_request_only_sent.
  - repeat split; simpl; auto. exists []. by rewrite app_nil_r.
Qed.

Lemma extends_refl w : extends w w.
Proof.
  repeat split; auto; exists []; by rewrite app_nil_r.
Qed.

Lemma extends_trans w1 w2 w3 : extends w1 w2 → extends w2 w3 → extends w1 w3.
Proof.
  intros ([n1 H1] & C1 & A1 & [r1 S1]) ([n2 H2] & C2 & A2 & [r2 S2]).
  repeat split; try congruence.
  - exists (n1 ++ n2)%list. by rewrite H2, H1, <- app_assoc.
  - exists (r1 ++ r2)%list. by rewrite S2, S1, <- app_assoc.
Qed.

Lemma only_sent_extends w w' : only_sent w w' → extends w w'.
Proof.
  intros (H & C & A & S). repeat split; auto.
  exists []. by rewrite app_nil_r.
Qed.

Lemma update_loop_app env client pre post acc w :
  update_loop env client (pre ++ post) acc w =
  match update_loop env client pre acc w with
  | (w1, Ok snap1) => update_loop env client post snap1 w1
  | (w1, Raised e) => (w1, Raised e)
  end.
Proof.
  revert acc w. induction pre as [|d pre IH]; intros acc w; simpl.
  - reflexivity.
  - unfold bind, alloc.
    destruct (get_device_data env client d w) as [w1 [doc|e]];
      [apply IH | reflexivity].
Qed.

(** One turn of the loop: the fetch, then the store of the document
    under the mac. *)
Lemma update_loop_cons env client d rest acc w :
  update_loop env client (d :: rest) acc w =
  match get_device_data env client d w with
  | (w1, Ok doc) =>
      update_loop env client rest (<[ mac d := length (heap w1) ]> acc)
        (set_heap (fun h => (h ++ [doc])%list) w1)
  | (w1, Raised e) => (w1, Raised e)
  end.
Proof.
  simpl. unfold bind, alloc.
  by destruct (get_device_data env client d w) as [w1 [doc|e]].
Qed.

Lemma update_loop_extends env client ds acc w :
  extends w (update_loop env client ds acc w).1.
Proof.
  revert acc w. induction ds as [|d ds IH]; intros acc w.
  - apply extends_refl.
  - rewrite update_loop_cons.
    pose proof (get_device_data_only_sent env client d w) as Hget.
    destruct (get_device_data env client d w) as [w1 [doc|e]]; simpl in Hget.
    + eapply extends_trans; [|apply IH].
      eapply extends_trans; [apply only_sent_extends, Hget|].
      repeat split; simpl; auto.
      * by exists [doc].
      * exists []. by rewrite app_nil_r.
    + simpl. by apply only_sent_extends.
Qed.

(** The loop leaves the entry of a mac alone unless a device of the
    list carries that mac. *)
Lemma update_loop_other_macs env client ds acc w w' snap m :
  update_loop env client ds acc w = (w', Ok snap) →
  m ∉ mac <$> ds →
  snap !! m = acc !! m.
Proof.
  revert acc w. induction ds as [|d ds IH]; intros acc w.
  - by intros [= _ <-] _.
  - rewrite update_loop_cons, fmap_cons.
    destruct (get_device_data env client d w) as [w1 [doc|e]]; [|done].
    intros Hloop [Hne Hnotin]%not_elem_of_cons.
    rewrite (IH _ _ Hloop Hnotin). by rewrite lookup_insert_ne.
Qed.

(** Either the loop returns, or there is a first device whose fetch
    raises. *)
Lemma update_loop_cases env client ds acc w :
  (∃ w' snap, update_loop env client ds acc w = (w', Ok snap)) ∨
  (∃ pre d post w1 snap1 w2 e,
     ds = (pre ++ d :: post)%list ∧
     update_loop env client pre acc w = (w1, Ok snap1) ∧
     get_device_data env client d w1 = (w2, Raised e)).
Proof.
  revert acc w. induction ds as [|d ds IH]; intros acc w.
  - left. by exists w, acc.
  - destruct (get_device_data env client d w) as [w1 [doc|e]] eqn:Hget.
    + destruct (IH (<[ mac d := length (heap w1) ]> acc)
                   (set_heap (fun h => (h ++ [doc])%list) w1))
        as [(w' & snap & Hok)
           |(pre & b & post & w2 & snap1 & w3 & e & -> & Hpre & Hb)].
      * left. exists w', snap. by rewrite update_loop_cons, Hget.
      * right. exists (d :: pre), b, post, w2, snap1, w3, e.
        split; [done|]. split; [|done].
        by rewrite update_loop_cons, Hget.
    + right. exists [], d, ds, w, acc, w1, e. by repeat split.
Qed.

(** [_async_update_data] is the loop under its one [except] clause. *)
Lemma async_update_data_run env w :
  _async_update_data env w =
  match update_loop env (api_client (coordinator w))
          (devices (coordinator w)) ∅ w with
  | (w', Ok snap) => (w', Ok snap)
  | (w', Raised e) =>
      if is_EheimDigitalError e
      then (set_coordinator (set_last_update_success false) w',
            Raised (UpdateFailed e))
      else (w', Raised e)
  end.
Proof.
  unfold _async_update_data, bind, get_state, try_except. simpl.
  destruct (update_loop _ _ _ _ _) as [w' [snap|e]]; [done|].
  simpl. by destruct (is_EheimDigitalError e).
Qed.

(** C2 (amended): when the fetch of a device raises a client error, the
    cycle ends there: no request follows, [UpdateFailed] is raised,
    [last_update_success] is cleared and the published snapshot with
    every document it holds is as before. When the cycle returns, the
    snapshot maps the mac of a device to the document fetched for it
    provided no later device of the list carries the same mac (the last
    device with a mac wins). The cycle returns unless a fetch raises. *)
Theorem poll_cycle_fails_fast_last_mac_wins env w :
  let c := coordinator w in
  (∀ pre d post w1 snap1 w2 e,
     devices c = (pre ++ d :: post)%list →
     update_loop env (api_client c) pre ∅ w = (w1, Ok snap1) →
     get_device_data env (api_client c) d w1 = (w2, Raised e) →
     is_EheimDigitalError e = true →
     ∃ w', _async_update_data env w = (w', Raised (UpdateFailed e)) ∧
           sent w' = sent w2 ∧
           data (coordinator w') = data c ∧
           last_update_success (coordinator w') = false ∧
           ∀ m doc, entry (data c) w m = Some doc →
                    entry (data (coordinator w')) w' m = Some doc) ∧
  (∀ w' snap,
     _async_update_data env w = (w', Ok snap) →
     ∀ pre d post w1 snap1 w2 doc,
       devices c = (pre ++ d :: post)%list →
       update_loop env (api_client c) pre ∅ w = (w1, Ok snap1) →
       get_device_data env (api_client c) d w1 = (w2, Ok doc) →
       mac d ∉ mac <$> post →
       entry snap w' (mac d) = Some doc) ∧
  ((∃ w' snap, _async_update_data env w = (w', Ok snap)) ∨
   (∃ pre d post w1 snap1 w2 e,
      devices c = (pre ++ d :: post)%list ∧
      update_loop env (api_client c) pre ∅ w = (w1, Ok snap1) ∧
      get_device_data env (api_client c) d w1 = (w2, Raised e))).
Proof.
  intros c. split; [|split].
  - intros pre d post w1 snap1 w2 e Hds Hpre Hget Hdom.
    exists (set_coordinator (set_last_update_success false) w2).
    assert (update_loop env (api_client c) (devices c) ∅ w = (w2, Raised e))
      as Hloop.
    { by rewrite Hds, update_loop_app, Hpre, update_loop_cons, Hget. }
    pose proof (update_loop_extends env (api_client c) (devices c) ∅ w) as Hext.
    rewrite Hloop in Hext. destruct Hext as ([new Hheap] & Hc & _ & _).
    rewrite async_update_data_run. fold c. rewrite Hloop, Hdom.
    simpl in *. rewrite Hc. fold c. repeat split.
    intros m doc. unfold entry; simpl.
    destruct (data c !! m) as [l|]; [|done].
    rewrite Hheap. apply lookup_app_l_Some.
  - intros w' snap Hrun pre d post w1 snap1 w2 doc Hds Hpre Hget Hlast.
    rewrite async_update_data_run in Hrun. fold c in Hrun.
    destruct (update_loop env (api_client c) (devices c) ∅ w)
      as [w'' [snap'|e]] eqn:Hloop.
    2:{ by destruct (is_EheimDigitalError e). }
    injection Hrun as -> ->.
    rewrite Hds, update_loop_app, Hpre, update_loop_cons, Hget in Hloop.
    pose proof (update_loop_extends env (api_client c) post
                  (<[ mac d := length (heap w2) ]> snap1)
                  (set_heap (fun h => (h ++ [doc])%list) w2)) as Hext.
    rewrite Hloop in Hext. destruct Hext as ([new Hheap] & _).
    unfold entry. rewrite (update_loop_other_macs _ _ _ _ _ _ _ _ Hloop Hlast).
    rewrite lookup_insert_eq. simpl in Hheap. rewrite Hheap.
    apply lookup_app_l_Some. by rewrite list_lookup_middle.
  - rewrite async_update_data_run. fold c.
    destruct (update_loop_cases env (api_client c) (devices c) ∅ w)
      as [(w' & snap & Hok)|Hraise].
    + left. exists w', snap. by rewrite Hok.
    + by right.
Qed.

(** C10 (amended): when the devices before one of unknown version have
    all been fetched, the cycle raises [KeyError] at that device. The
    [except EheimDigitalError] clause does not take it: no [UpdateFailed]
    is raised, [last_update_success] keeps its value, and no request is
    issued for that device or any after it. *)
Theorem poll_cycle_unknown_version_escapes env w pre d post w1 snap1 :
  let c := coordinator w in
  devices c = (pre ++ d :: post)%list →
  DEVICE_ENDPOINTS env !! version d = None →
  update_loop env (api_client c) pre ∅ w = (w1, Ok snap1) →
  _async_update_data env w = (w1, Raised KeyError) ∧
  is_EheimDigitalError KeyError = false ∧
  last_update_success (coordinator w1) = last_update_success c ∧
  data (coordinator w1) = data c.
Proof.
  intros c Hds Hversion Hpre.
  assert (get_device_data env (api_client c) d w1 = (w1, Raised KeyError))
    as Hget.
  { unfold get_device_data. by rewrite Hversion. }
  pose proof (update_loop_extends env (api_client c) pre ∅ w) as Hext.
  rewrite Hpre in Hext. destruct Hext as (_ & Hc & _).
  rewrite async_update_data_run. fold c.
  rewrite Hds, update_loop_app, Hpre, update_loop_cons, Hget.
  simpl in *. by rewrite Hc.
Qed.

(** ** Setup-time validation *)

(** C8 (amended): the validation fetches [devicelist] from the host and
    raises a client error exactly when the fetched document is empty
    (falsy) or the fetch raised a client error; the flow then shows the
    form with the one error [communication_error]. On a non-empty
    document the entry is created. An exception of the fetch that is not
    a client error leaves the flow as it is. *)
Theorem setup_validation_outcomes env input host w :
  input !! CONF_IP_ADDRESS = Some host →
  let fetched := get env host "devicelist" None w in
  let form := ShowForm "user" {[ "base" := "communication_error" ]} in
  ((∃ e, (_test_host_connection env host w).2 = Raised e ∧
         is_EheimDigitalError e = true) ↔
   ((∃ doc, fetched.2 = Ok doc ∧ truthy doc = false) ∨
    (∃ e, fetched.2 = Raised e ∧ is_EheimDigitalError e = true))) ∧
  async_step_user env (Some input) w =
    (fetched.1,
     match fetched.2 with
     | Ok doc => if truthy doc then Ok (CreateEntry host input) else Ok form
     | Raised e => if is_EheimDigitalError e then Ok form else Raised e
     end).
Proof.
  intros Hhost fetched form. subst fetched. split.
  - unfold _test_host_connection, bind.
    destruct (get env host "devicelist" None w) as [w1 [doc|e]]; simpl.
    + destruct (truthy doc) eqn:Htruthy; simpl; split.
      * by intros (e & [=] & _).
      * intros [(doc' & [= <-] & Hfalse)|(e & [=] & _)]. congruence.
      * intros _. left. by exists doc.
      * intros _. by exists EheimDigitalError.
    + split.
      * intros (e' & [= <-] & He). right. by exists e.
      * intros [(doc & [=] & _)|(e' & [= <-] & He)]. by exists e.
  - unfold async_step_user, try_except, bind, subscript, _test_host_connection,
      bind.
    unfold CONF_IP_ADDRESS in *. rewrite Hhost. simpl.
    destruct (get env host "devicelist" None w) as [w1 [doc|e]]; simpl.
    + by destruct (truthy doc).
    + by destruct (is_EheimDigitalError e).
Qed.

(** ** The switches *)

(** What a turn of a switch does, in terms of its command: on success
    the item assignment and the signal follow; a raised exception goes to
    the [except] clause of the turn, if it has one. *)
Lemma async_turn_on_run env w e :
  async_turn_on env (w, e) =
  match set_state_fn (entity_description e) env (_device e)
          (coordinator w) true w with
  | (w1, Ok _) =>
      match setitem (default PNone (heap w1 !! _switch_data e))
              (state_key (entity_description e)) (PInt 1) with
      | Ok obj =>
          ((set_ha_writes (fun log =>
              (log ++ [(mac (_device e), key (entity_description e))])%list)
              (set_heap (fun h => <[ _switch_data e := obj ]> h) w1), e),
           Ok tt)
      | Raised x => ((w1, e), Raised x)
      end
  | (w1, Raised x) => ((w1, e), Raised x)
  end.
Proof.
  unfold async_turn_on, command, patch_state_key, async_write_ha_state,
    setitem_at, deref, bind, world, self, get_state, modify, ret; simpl.
  destruct (set_state_fn _ _ _ _ _ _) as [w1 [[]|x]]; simpl; [|done].
  by destruct (setitem _ _ _).
Qed.

Lemma async_turn_off_run env w e :
  async_turn_off env (w, e) =
  match set_state_fn (entity_description e) env (_device e)
          (coordinator w) false w with
  | (w1, Ok _) =>
      match setitem (default PNone (heap w1 !! _switch_data e))
              (state_key (entity_description e)) (PInt 0) with
      | Ok obj =>
          ((set_ha_writes (fun log =>
              (log ++ [(mac (_device e), key (entity_description e))])%list)
              (set_heap (fun h => <[ _switch_data e := obj ]> h) w1), e),
           Ok tt)
      | Raised x => ((w1, e), Raised x)
      end
  | (w1, Raised x) =>
      if is_EheimDigitalError x
      then ((set_ha_writes (fun log =>
               (log ++ [(mac (_device e), key (entity_description e))])%list)
               w1, set_attr_available false e), Ok tt)
      else ((w1, e), Raised x)
  end.
Proof.
  unfold async_turn_off, try_except, command, patch_state_key,
    async_write_ha_state, setitem_at, deref, set_self, bind, world, self,
    get_state, modify, ret; simpl.
  destruct (set_state_fn _ _ _ _ _ _) as [w1 [[]|x]]; simpl.
  - destruct (default PNone (heap w1 !! _switch_data e)); simpl; done.
  - by destruct (is_EheimDigitalError x).
Qed.

Lemma command_run env state w e :
  command env state (w, e) =
  match set_state_fn (entity_description e) env (_device e)
          (coordinator w) state w with
  | (w1, r) => ((w1, e), r)
  end.
Proof.
  unfold command, bind, world, self, get_state; simpl.
  by destruct (set_state_fn _ _ _ _ _ _) as [w1 [[]|x]].
Qed.

(** C3 (amended): when its command returns, turning a switch on sets the
    state key of the status document it points at to 1 and signals the
    change once; when its command raises, the state key is not set: the
    store is as the command left it. *)
Theorem turn_on_sets_key_only_after_command_returns env w e w1 r :
  set_state_fn (entity_description e) env (_device e) (coordinator w) true w
    = (w1, r) →
  match r with
  | Ok _ =>
      ∀ m, heap w1 !! _switch_data e = Some (PDict m) →
      ∃ w', async_turn_on env (w, e) = ((w', e), Ok tt) ∧
            item (heap w' !! _switch_data e)
              (state_key (entity_description e)) = Some (PInt 1) ∧
            ha_writes w' =
              (ha_writes w1 ++
               [(mac (_device e), key (entity_description e))])%list
  | Raised x => heap (async_turn_on env (w, e)).1.1 = heap w1
  end.
Proof.
  intros Hcmd. rewrite async_turn_on_run, Hcmd.
  destruct r as [[]|x]; [|done].
  intros m Hm. rewrite Hm. simpl. eexists. split; [done|]. simpl. split; [|done].
  rewrite list_lookup_insert_eq by (by eapply lookup_lt_Some).
  simpl. apply lookup_insert_eq.
Qed.

(** C6 (amended): turning a switch off marks the entity unavailable
    exactly when its command raised a client error; it then signals the
    change and returns. When the command returns and the status document
    the switch points at is a mapping, the state key is set to 0 and the
    change is signalled; when the command returns and the document is no
    mapping, the item assignment raises [TypeError] before the signal:
    the entity is not marked and nothing is signalled. An exception of
    the command that is not a client error leaves the call: the entity
    is not marked and nothing is signalled. *)
Theorem turn_off_unavailable_iff_client_error env w e w1 r :
  set_state_fn (entity_description e) env (_device e) (coordinator w) false w
    = (w1, r) →
  let signal := (mac (_device e), key (entity_description e)) in
  (async_turn_off env (w, e)).1.2 =
    match r with
    | Ok _ => e
    | Raised x =>
        if is_EheimDigitalError x then set_attr_available false e else e
    end ∧
  match r with
  | Ok _ =>
      (∀ m, heap w1 !! _switch_data e = Some (PDict m) →
       ∃ w', async_turn_off env (w, e) = ((w', e), Ok tt) ∧
             item (heap w' !! _switch_data e)
               (state_key (entity_description e)) = Some (PInt 0) ∧
             ha_writes w' = (ha_writes w1 ++ [signal])%list) ∧
      ((∀ m, heap w1 !! _switch_data e ≠ Some (PDict m)) →
       async_turn_off env (w, e) = ((w1, e), Raised TypeError))
  | Raised x =>
      if is_EheimDigitalError x
      then ∃ w', async_turn_off env (w, e) =
                   ((w', set_attr_available false e), Ok tt) ∧
                 heap w' = heap w1 ∧
                 ha_writes w' = (ha_writes w1 ++ [signal])%list
      else async_turn_off env (w, e) = ((w1, e), Raised x)
  end.
Proof.
  intros Hcmd signal. rewrite async_turn_off_run, Hcmd.
  destruct r as [[]|x].
  - split; [by destruct (setitem _ _ _)|]. split.
    + intros m Hm. rewrite Hm. simpl. eexists. split; [done|]. simpl.
      split; [|done].
      rewrite list_lookup_insert_eq by (by eapply lookup_lt_Some).
      simpl. apply lookup_insert_eq.
    + intros Hother.
      destruct (heap w1 !! _switch_data e) as [[| | | | |m]|] eqn:Hobj;
        simpl; try done.
      by destruct (Hother m).
  - destruct (is_EheimDigitalError x); [|done].
    split; [done|]. by eexists.
Qed.

(** The two commands of [SWITCH_DESCRIPTIONS] post to the hub and touch
    nothing else. *)
Lemma listed_command_only_sent env e state w :
  entity_description e ∈ SWITCH_DESCRIPTIONS →
  only_sent w (set_state_fn (entity_description e) env (_device e)
                 (coordinator w) state w).1.
Proof.
  unfold SWITCH_DESCRIPTIONS.
  intros [->|[->|[]%elem_of_nil]%elem_of_cons]%elem_of_cons; simpl;
    unfold set_filter_state, set_phcontrol_state, post, bind;
    match goal with
    | |- context [_send_request ?a ?b ?c ?d ?f ?g ?h] =>
        pose proof (send_request_only_sent a b c d f g h) as Hsent;
        destruct (_send_request a b c d f g h) as [w1 [v|x]]
    end; exact Hsent.
Qed.

(** What a turn of a listed switch does to the world: the coordinator is
    as before, and the store is either as before or differs in the one
    key of the one document, the latter only if the command returned. *)
Lemma switch_turn_effect env w e (on : bool) :
  entity_description e ∈ SWITCH_DESCRIPTIONS →
  let turn := if on then async_turn_on env (w, e)
              else async_turn_off env (w, e) in
  coordinator turn.1.1 = coordinator w ∧
  (heap turn.1.1 = heap w ∨
   ∃ m v, heap w !! _switch_data e = Some (PDict m) ∧
          heap turn.1.1 =
            <[ _switch_data e :=
                 PDict (<[ state_key (entity_description e) := v ]> m) ]>
              (heap w) ∧
          (command env on (w, e)).2 = Ok tt) ∧
  (∀ x, (command env on (w, e)).2 = Raised x → heap turn.1.1 = heap w).
Proof.
  intros Hlisted turn. subst turn.
  pose proof (listed_command_only_sent env e on w Hlisted) as Hsent.
  rewrite command_run.
  destruct on; rewrite ?async_turn_on_run, ?async_turn_off_run;
    destruct (set_state_fn _ _ _ _ _ _) as [w1 [[]|x]];
    destruct Hsent as (Hheap & Hc & _ & _); simpl in *.
  - rewrite Hheap.
    destruct (heap w !! _switch_data e) as [[| | | | |m]|] eqn:Hobj; simpl;
      try (by repeat split; auto).
    rewrite Hheap. split; [done|]. split; [|done].
    right. by exists m, (PInt 1).
  - repeat split; auto; by intros x' [= <-].
  - rewrite Hheap.
    destruct (heap w !! _switch_data e) as [[| | | | |m]|] eqn:Hobj; simpl;
      try (by repeat split; auto).
    rewrite Hheap. split; [done|]. split; [|done].
    right. by exists m, (PInt 0).
  - destruct (is_EheimDigitalError x); simpl; repeat split; auto.
Qed.

(** C9: a turn of a switch, on or off, changes at most the state key of
    the snapshot entry of its own device, and only when its command
    returned. The snapshot maps every mac to the document it mapped it
    to; the entry of every other device is as before; every other key of
    the device's own entry is as before; and when the command raised,
    the store, and so the state key, is as before. *)
Theorem switch_turn_changes_only_own_state_key env w e (on : bool) :
  entity_description e ∈ SWITCH_DESCRIPTIONS →
  exclusive w e →
  let turn := if on then async_turn_on env (w, e)
              else async_turn_off env (w, e) in
  let w' := turn.1.1 in
  let snap := data (coordinator w) in
  data (coordinator w') = snap ∧
  (∀ m, m ≠ mac (_device e) → entry snap w' m = entry snap w m) ∧
  (∀ k, k ≠ state_key (entity_description e) →
        item (entry snap w' (mac (_device e))) k =
        item (entry snap w (mac (_device e))) k) ∧
  (∀ x, (command env on (w, e)).2 = Raised x → heap w' = heap w) ∧
  (heap w' ≠ heap w → (command env on (w, e)).2 = Ok tt).
Proof.
  intros Hlisted Hexcl turn w' snap.
  destruct (switch_turn_effect env w e on Hlisted) as (Hc & Hheap & Hfail).
  fold turn in Hc, Hheap, Hfail. fold w' in Hc, Hheap, Hfail.
  split; [by rewrite Hc|]. split; [|split; [|split]].
  - intros m Hm. unfold entry.
    destruct (snap !! m) as [l|] eqn:Hl; [|done].
    destruct Hheap as [->|(m0 & v & _ & -> & _)]; [done|].
    apply list_lookup_insert_ne. intros <-. by apply Hm, Hexcl.
  - intros k Hk. unfold entry.
    destruct (snap !! mac (_device e)) as [l|] eqn:Hl; [|done].
    destruct Hheap as [->|(m0 & v & Hobj & -> & _)]; [done|].
    destruct (decide (l = _switch_data e)) as [->|Hne].
    + rewrite list_lookup_insert_eq by (by eapply lookup_lt_Some).
      rewrite Hobj. simpl. by apply lookup_insert_ne.
    + by rewrite list_lookup_insert_ne.
  - exact Hfail.
  - intros Hchanged. by destruct Hheap as [?|(m0 & v & _ & _ & Hok)].
Qed.

(** ** Where the snapshots and the switches come from *)

(** The loop stores every document at a location of its own, so the
    snapshot it builds never lets two macs share a document. *)
Lemma update_loop_separate env client ds acc w w' snap :
  separate acc →
  (∀ m l, acc !! m = Some l → (l < length (heap w))%nat) →
  update_loop env client ds acc w = (w', Ok snap) →
  separate snap ∧ ∀ m l, snap !! m = Some l → (l < length (heap w'))%nat.
Proof.
  revert acc w. induction ds as [|d ds IH]; intros acc w Hsep Hbound.
  - by intros [= <- <-].
  - rewrite update_loop_cons.
    pose proof (get_device_data_only_sent env client d w) as Hget.
    destruct (get_device_data env client d w) as [w1 [doc|e]]; [|done].
    destruct Hget as (Hheap & _). simpl in Hheap.
    apply IH.
    + intros m1 m2 l.
      destruct (decide (m1 = mac d)) as [->|H1],
               (decide (m2 = mac d)) as [->|H2]; auto;
        rewrite ?lookup_insert_eq, ?lookup_insert_ne by done.
      * intros [= <-] H. apply Hbound in H. rewrite Hheap in H. lia.
      * intros H [= <-]. apply Hbound in H. rewrite Hheap in H. lia.
      * apply Hsep.
    + intros m l. simpl. rewrite length_app, Hheap. simpl.
      destruct (decide (m = mac d)) as [->|H1];
        rewrite ?lookup_insert_eq, ?lookup_insert_ne by done.
      * intros [= <-]. lia.
      * intros H%Hbound. lia.
Qed.

(** The documents of a snapshot are new: none was in the store when the
    cycle began. *)
Lemma update_loop_fresh env client ds acc w w' snap n :
  (n ≤ length (heap w))%nat →
  (∀ m l, acc !! m = Some l → (n ≤ l)%nat) →
  update_loop env client ds acc w = (w', Ok snap) →
  ∀ m l, snap !! m = Some l → (n ≤ l)%nat.
Proof.
  revert acc w. induction ds as [|d ds IH]; intros acc w Hn Hbound.
  - by intros [= <- <-].
  - rewrite update_loop_cons.
    pose proof (get_device_data_only_sent env client d w) as Hget.
    destruct (get_device_data env client d w) as [w1 [doc|e]]; [|done].
    destruct Hget as (Hheap & _). simpl in Hheap.
    apply IH.
    + simpl. rewrite length_app, Hheap. lia.
    + intros m l.
      destruct (decide (m = mac d)) as [->|H1];
        rewrite ?lookup_insert_eq, ?lookup_insert_ne by done.
      * intros [= <-]. by rewrite Hheap.
      * apply Hbound.
Qed.

Lemma async_update_data_separate env w w' snap :
  _async_update_data env w = (w', Ok snap) → separate snap.
Proof.
  rewrite async_update_data_run.
  destruct (update_loop _ _ _ _ _) as [w1 [snap1|e]] eqn:Hloop.
  - intros [= <- <-].
    eapply update_loop_separate in Hloop as [? _]; [done| |].
    + intros m1 m2 l H. by rewrite lookup_empty in H.
    + intros m l H. by rewrite lookup_empty in H.
  - by destruct (is_EheimDigitalError e).
Qed.

(** A switch made from a snapshot that keeps its documents apart points
    at the entry of its own device and of no other. *)
Lemma new_EheimSwitch_exclusive description device w w' e :
  separate (data (coordinator w)) →
  new_EheimSwitch description device w = (w', Ok e) →
  w' = w ∧ exclusive w e ∧
  data (coordinator w) !! mac device = Some (_switch_data e).
Proof.
  intros Hsep. unfold new_EheimSwitch, coordinator_data, bind, get_state.
  simpl. destruct (data (coordinator w) !! mac device) as [l|] eqn:Hl; [|done].
  intros [= <- <-]. split; [done|]. split; [|done].
  intros m Hm. simpl in *. by eapply Hsep.
Qed.

(** A switch that still points at a document of an earlier snapshot
    shares it with no device of the snapshot of a later cycle. *)
Lemma stale_switch_exclusive env w w' snap w'' e :
  _async_update_data env w = (w', Ok snap) →
  (_switch_data e < length (heap w))%nat →
  data (coordinator w'') = snap →
  exclusive w'' e.
Proof.
  rewrite async_update_data_run.
  destruct (update_loop _ _ _ _ _) as [w1 [snap1|x]] eqn:Hloop.
  - intros [= <- <-] Hold Hdata m Hm. rewrite Hdata in Hm.
    eapply (update_loop_fresh _ _ _ _ _ _ _ (length (heap w))) in Hm;
      [lia|done| |exact Hloop].
    intros m' l H. by rewrite lookup_empty in H.
  - by destruct (is_EheimDigitalError x).
Qed.

(** ** Stripping, and the decoder of the examples *)

Lemma lstrip_head s :
  lstrip s = EmptyString ∨
  ∃ c s', lstrip s = String c s' ∧ is_space c = false.
Proof.
  induction s as [|c s IH]; simpl; [by left|].
  destruct (is_space c) eqn:Hc; [done|]. right. by exists c, s.
Qed.

Lemma rstrip_head c s :
  is_space c = false → ∃ r, rstrip (String c s) = String c r.
Proof.
  intros Hc. simpl. destruct (rstrip s); rewrite ?Hc; eauto.
Qed.

Lemma rstrip_idempotent s : rstrip (rstrip s) = rstrip s.
Proof.
  induction s as [|c s IH]; simpl; [done|].
  destruct (rstrip s) as [|a r] eqn:Hr.
  - destruct (is_space c) eqn:Hc; simpl; [done|]. by rewrite Hc.
  - change (rstrip (String c (String a r))) with
      (match rstrip (String a r) with
       | EmptyString =>
           if is_space c then EmptyString else String c EmptyString
       | String a' r' => String c (String a' r')
       end).
    by rewrite IH.
Qed.

Lemma strip_idempotent s : strip (strip s) = strip s.
Proof.
  unfold strip. destruct (lstrip_head s) as [->|(c & s' & -> & Hc)]; [done|].
  destruct (rstrip_head c s' Hc) as [r Hr]. rewrite Hr at 1.
  simpl lstrip. rewrite Hc, <- Hr. apply rstrip_idempotent.
Qed.

Lemma literal_loads_ignores_outer_whitespace script :
  ignores_outer_whitespace (example_env script).
Proof.
  split; [reflexivity|].
  intros s v. simpl. unfold literal_loads. by rewrite strip_idempotent.
Qed.

(** * The properties at concrete inputs *)

(** The status answer [{"filterActive": 1}] decodes to the same mapping
    under both JSON content types and stays text under another. *)
Lemma json_decoded_alike_witness :
  let env t := example_env [json_response 200 t status_text] in
  let w := example_world [] [] ∅ in
  let ask t := (_send_request (env t) "GET" (PStr "10.0.0.1")
                  "professionel5e" None None w).2 in
  ask "application/json" = Ok status_document ∧
  ask "text/json" = Ok status_document ∧
  ask "text/plain" = Ok (PStr status_text).
Proof.
  intros env w ask.
  pose proof (fun t =>
    json_decoded_alike_for_both_content_types (env t) "GET" (PStr "10.0.0.1")
      "professionel5e" None None w {[ "Content-Type" := t ]} status_text
      status_document (literal_loads_ignores_outer_whitespace _)
      eq_refl eq_refl) as H.
  split; [|split].
  - exact (proj1 (H "application/json") eq_refl).
  - exact (proj1 (proj2 (H "text/json")) eq_refl).
  - apply (proj2 (proj2 (H "text/plain"))); vm_compute; discriminate.
Defined.

(** A device of version [v1] is asked for at the master host, not at its
    own address; one of version [v9] is not asked for at all. *)
Lemma get_device_data_asks_master_witness :
  let env := example_env [json_response 200 "text/json" status_text] in
  let w := example_world [] [] ∅ in
  sent (get_device_data env example_master
          (example_device "AA" "v1" "10.0.0.5") w).1 =
    [ mkRequest "GET" (PStr "10.0.0.1") "professionel5e" None
        (Some (PDict {[ "to" := PStr "AA" ]})) ] ∧
  get_device_data env example_master (example_device "AA" "v9" "10.0.0.5") w
    = (w, Raised KeyError).
Proof.
  intros env w. split.
  - exact (proj1 (get_device_data_asks_master env example_master
                    (example_device "AA" "v1" "10.0.0.5") w)
             "professionel5e" eq_refl).
  - exact (proj1 (proj2 (get_device_data_asks_master env example_master
                    (example_device "AA" "v9" "10.0.0.5") w)) eq_refl).
Defined.

(** Two addresses, both answering, give two devices in the order of the
    list, each with the address it was asked at; when the second address
    fails to connect, no list comes back. *)
Lemma fetch_devices_witness :
  let devicelist := json_response 200 "application/json" devicelist_text in
  let first := json_response 200 "text/json"
                 (userdata_text "AA:BB:CC:DD:EE:FF" "v1") in
  let second := json_response 200 "text/json"
                  (userdata_text "11:22:33:44:55:66" "v2") in
  let w := example_world [] [] ∅ in
  (∃ w' devs,
     fetch_devices (example_env [devicelist; first; second]) example_master w
       = (w', Ok devs) ∧
     ip <$> devs = [PStr "10.0.0.5"; PStr "10.0.0.6"] ∧
     mac <$> devs = ["AA:BB:CC:DD:EE:FF"; "11:22:33:44:55:66"]) ∧
  (∃ w', fetch_devices (example_env [devicelist; first; Fails ClientError])
           example_master w = (w', Raised EheimDigitalConnectionError)).
Proof.
  intros devicelist first second w. split.
  - destruct (fetch_devices (example_env [devicelist; first; second])
                example_master w) as [w' [devs|e]] eqn:Hrun;
      [|vm_compute in Hrun; discriminate].
    exists w', devs. split; [reflexivity|].
    split.
    + eapply (proj1 (fetch_devices_in_order_or_nothing
                       (example_env [devicelist; first; second])
                       example_master w
                       _ devicelist_document _ _ eq_refl eq_refl eq_refl)).
      exact Hrun.
    + vm_compute in Hrun. injection Hrun as _ <-. reflexivity.
  - eexists.
    eapply (proj1 (proj2 (fetch_devices_in_order_or_nothing
                     (example_env [devicelist; first; Fails ClientError])
                     example_master w
                     _ devicelist_document _ _ eq_refl eq_refl eq_refl))
              [PStr "10.0.0.5"] (PStr "10.0.0.6") []); vm_compute; reflexivity.
Defined.

(** C2, counterexample: two devices carry the mac [AA]. The document
    fetched for the first is 1, the one fetched for the second is 0, and
    the snapshot the cycle returns maps [AA] to 0: not to the document
    fetched for the first device. *)
Lemma poll_cycle_duplicate_mac_counterexample :
  let first := example_device "AA" "v1" "10.0.0.5" in
  let second := example_device "AA" "v2" "10.0.0.6" in
  let env := example_env [ json_response 200 "text/json" "1";
                           json_response 200 "text/json" "0" ] in
  let w := example_world [first; second] [] ∅ in
  (get_device_data env example_master first w).2 = Ok (PInt 1) ∧
  ∃ w' snap, _async_update_data env w = (w', Ok snap) ∧
             entry snap w' (mac first) = Some (PInt 0) ∧
             entry snap w' (mac first) ≠ Some (PInt 1).
Proof.
  intros first second env w. split; [reflexivity|].
  eexists _, _. split; [vm_compute; reflexivity|].
  split; [reflexivity|]. vm_compute. discriminate.
Qed.

(** The hub answers the first device and fails to connect for the
    second: the cycle stops there with [UpdateFailed], issues two
    requests and no third, and leaves the published snapshot as it was.
    When it answers both, each mac maps to the document of its device. *)
Lemma poll_cycle_witness :
  let first := example_device "AA" "v1" "10.0.0.5" in
  let second := example_device "BB" "v2" "10.0.0.6" in
  let third := example_device "CC" "v1" "10.0.0.7" in
  let w := example_world [first; second; third] [PInt 0] {[ "AA" := 0%nat ]} in
  let failing := example_env [ json_response 200 "text/json" "1";
                               Fails ClientError;
                               json_response 200 "text/json" "1" ] in
  let answering := example_env [ json_response 200 "text/json" "1";
                                 json_response 200 "text/json" "0";
                                 json_response 200 "text/json" "true" ] in
  (∃ w', _async_update_data failing w =
           (w', Raised (UpdateFailed EheimDigitalConnectionError)) ∧
         length (sent w') = 2%nat ∧
         data (coordinator w') = {[ "AA" := 0%nat ]} ∧
         last_update_success (coordinator w') = false ∧
         entry (data (coordinator w')) w' "AA" = Some (PInt 0)) ∧
  (∃ w' snap, _async_update_data answering w = (w', Ok snap) ∧
              entry snap w' "BB" = Some (PInt 0)).
Proof.
  intros first second third w failing answering. split.
  - destruct (proj1 (poll_cycle_fails_fast_last_mac_wins failing w)
                [first] second [third]
                (update_loop failing example_master [first] ∅ w).1
                {[ "AA" := 1%nat ]}
                (get_device_data failing example_master second
                   (update_loop failing example_master [first] ∅ w).1).1
                EheimDigitalConnectionError
                eq_refl eq_refl eq_refl eq_refl)
      as (w' & Hrun & Hsent & Hdata & Hflag & Hentry).
    exists w'. split; [exact Hrun|].
    split; [by rewrite Hsent|]. split; [exact Hdata|]. split; [exact Hflag|].
    by apply Hentry.
  - destruct (_async_update_data answering w) as [w' [snap|e]] eqn:Hrun;
      [|vm_compute in Hrun; discriminate].
    exists w', snap. split; [reflexivity|].
    eapply (proj1 (proj2 (poll_cycle_fails_fast_last_mac_wins answering w))
              w' snap Hrun [first] second [third]).
    + reflexivity.
    + vm_compute. reflexivity.
    + vm_compute. reflexivity.
    + vm_compute. intros H. by repeat (apply elem_of_cons in H as [H|H];
        [discriminate|]); apply elem_of_nil in H.
Defined.

(** C10, counterexample: the second device has the unknown version [v9],
    but the hub fails to connect for the first. The cycle raises
    [UpdateFailed], not [KeyError]: the device of unknown version is
    never reached. *)
Lemma poll_cycle_unknown_version_counterexample :
  let first := example_device "AA" "v1" "10.0.0.5" in
  let second := example_device "BB" "v9" "10.0.0.6" in
  let env := example_env [Fails ClientError] in
  let w := example_world [first; second] [] ∅ in
  DEVICE_ENDPOINTS env !! version second = None ∧
  (_async_update_data env w).2 =
    Raised (UpdateFailed EheimDigitalConnectionError) ∧
  (_async_update_data env w).2 ≠ Raised KeyError ∧
  last_update_success (coordinator (_async_update_data env w).1) = false.
Proof.
  intros first second env w. split; [reflexivity|].
  split; [reflexivity|]. split; [|reflexivity]. vm_compute. discriminate.
Qed.

(** The first device is answered, the second has the unknown version
    [v9]: [KeyError] leaves the cycle after one request. *)
Lemma poll_cycle_unknown_version_witness :
  let first := example_device "AA" "v1" "10.0.0.5" in
  let second := example_device "BB" "v9" "10.0.0.6" in
  let env := example_env [json_response 200 "text/json" "1"] in
  let w := example_world [first; second] [] ∅ in
  (_async_update_data env w).2 = Raised KeyError ∧
  length (sent (_async_update_data env w).1) = 1%nat ∧
  last_update_success (coordinator (_async_update_data env w).1) = true.
Proof.
  intros first second env w.
  destruct (poll_cycle_unknown_version_escapes env w [first] second []
              (update_loop env example_master [first] ∅ w).1
              {[ "AA" := 0%nat ]} eq_refl eq_refl eq_refl)
    as (Hrun & _ & Hflag & _).
  rewrite Hrun. split; [reflexivity|]. split; [reflexivity|exact Hflag].
Defined.

(** C3, counterexample: the hub fails to connect when the filter switch
    is turned on. The call raises, the state key keeps the value 0 and
    no state change is signalled. *)
Lemma turn_on_failed_command_counterexample :
  let device := example_device "AA" "v1" "10.0.0.5" in
  let e := filter_switch device 0 in
  let env := example_env [Fails ClientError] in
  let w := example_world [device] [PDict {[ "filterActive" := PInt 0 ]}]
             {[ "AA" := 0%nat ]} in
  (async_turn_on env (w, e)).2 = Raised EheimDigitalConnectionError ∧
  item (heap (async_turn_on env (w, e)).1.1 !! 0%nat) "filterActive"
    = Some (PInt 0) ∧
  item (heap (async_turn_on env (w, e)).1.1 !! 0%nat) "filterActive"
    ≠ Some (PInt 1) ∧
  ha_writes (async_turn_on env (w, e)).1.1 = [].
Proof.
  intros device e env w. split; [reflexivity|]. split; [reflexivity|].
  split; [|reflexivity]. vm_compute. discriminate.
Qed.

(** The hub answers the command: the state key goes from 0 to 1 and the
    change is signalled once. *)
Lemma turn_on_witness :
  let device := example_device "AA" "v1" "10.0.0.5" in
  let e := filter_switch device 0 in
  let env := example_env [json_response 200 "text/json" "1"] in
  let w := example_world [device] [PDict {[ "filterActive" := PInt 0 ]}]
             {[ "AA" := 0%nat ]} in
  ∃ w', async_turn_on env (w, e) = ((w', e), Ok tt) ∧
        item (heap w' !! 0%nat) "filterActive" = Some (PInt 1) ∧
        ha_writes w' = [("AA", "filter_is_active")].
Proof.
  intros device e env w.
  exact (turn_on_sets_key_only_after_command_returns env w e
           (set_state_fn (entity_description e) env device
              (coordinator w) true w).1
           (Ok tt) eq_refl {[ "filterActive" := PInt 0 ]} eq_refl).
Defined.

(** C6, counterexample: the hub answers the command with a body that is
    not JSON under the content type [text/json]. The command raises
    [JSONDecodeError], which is no client error: turning the switch off
    raises it too, the entity stays available and no state change is
    signalled. *)
Lemma turn_off_other_error_counterexample :
  let device := example_device "AA" "v1" "10.0.0.5" in
  let e := filter_switch device 0 in
  let env := example_env [json_response 200 "text/json" "oops"] in
  let w := example_world [device] [PDict {[ "filterActive" := PInt 1 ]}]
             {[ "AA" := 0%nat ]} in
  (command env false (w, e)).2 = Raised JSONDecodeError ∧
  (async_turn_off env (w, e)).2 = Raised JSONDecodeError ∧
  _attr_available (async_turn_off env (w, e)).1.2 = true ∧
  ha_writes (async_turn_off env (w, e)).1.1 = [].
Proof.
  intros device e env w. by repeat split.
Qed.

(** The hub fails to connect: turning the switch off returns, the
    entity is unavailable, the state key keeps its value and the change
    is signalled once. The hub answers the command: the state key goes
    from 1 to 0, the entity stays available and the change is signalled
    once. The hub answers the command but the status document is raw
    text: [TypeError] leaves the call and nothing is signalled. *)
Lemma turn_off_witness :
  let device := example_device "AA" "v1" "10.0.0.5" in
  let e := filter_switch device 0 in
  let failing := example_env [Fails ClientError] in
  let answering := example_env [json_response 200 "text/json" "1"] in
  let w := example_world [device] [PDict {[ "filterActive" := PInt 1 ]}]
             {[ "AA" := 0%nat ]} in
  let raw := example_world [device] [PStr "on"] {[ "AA" := 0%nat ]} in
  (_attr_available (async_turn_off failing (w, e)).1.2 = false ∧
   ∃ w', async_turn_off failing (w, e) =
           ((w', set_attr_available false e), Ok tt) ∧
         heap w' = heap w ∧
         ha_writes w' = [("AA", "filter_is_active")]) ∧
  (∃ w', async_turn_off answering (w, e) = ((w', e), Ok tt) ∧
         item (heap w' !! 0%nat) "filterActive" = Some (PInt 0) ∧
         ha_writes w' = [("AA", "filter_is_active")]) ∧
  (∃ w', async_turn_off answering (raw, e) = ((w', e), Raised TypeError) ∧
         ha_writes w' = []).
Proof.
  intros device e failing answering w raw. split; [|split].
  - destruct (turn_off_unavailable_iff_client_error failing w e
                (set_state_fn (entity_description e) failing device
                   (coordinator w) false w).1
                (Raised EheimDigitalConnectionError) eq_refl) as [Hmark Hrun].
    split; [by rewrite Hmark|]. exact Hrun.
  - exact (proj1 (proj2 (turn_off_unavailable_iff_client_error answering w e
                    (set_state_fn (entity_description e) answering device
                       (coordinator w) false w).1
                    (Ok tt) eq_refl))
             {[ "filterActive" := PInt 1 ]} eq_refl).
  - eexists. split.
    + apply (proj2 (proj2 (turn_off_unavailable_iff_client_error answering
                      raw e
                      (set_state_fn (entity_description e) answering device
                         (coordinator raw) false raw).1
                      (Ok tt) eq_refl))).
      intros m. vm_compute. discriminate.
    + reflexivity.
Defined.

(** C8, counterexample: the host answers [devicelist] with a body that
    is not JSON under the content type [text/json]. The fetch fails with
    [JSONDecodeError]; the validation raises no client error, and the
    flow neither shows the form nor creates the entry. *)
Lemma setup_validation_other_error_counterexample :
  let env := example_env [json_response 200 "text/json" "oops"] in
  let w := example_world [] [] ∅ in
  let host := PStr "10.0.0.1" in
  (get env host "devicelist" None w).2 = Raised JSONDecodeError ∧
  (_test_host_connection env host w).2 = Raised JSONDecodeError ∧
  is_EheimDigitalError JSONDecodeError = false ∧
  (async_step_user env (Some {[ CONF_IP_ADDRESS := host ]}) w).2
    = Raised JSONDecodeError.
Proof.
  intros env w host. by repeat split.
Qed.

(** A host that answers with a device list gets its entry; one that
    answers with the empty object, or fails to connect, gets the form
    with [communication_error]. *)
Lemma setup_validation_witness :
  let w := example_world [] [] ∅ in
  let host := PStr "10.0.0.1" in
  let input : gmap string pyval := {[ CONF_IP_ADDRESS := host ]} in
  let form := ShowForm "user" {[ "base" := "communication_error" ]} in
  (async_step_user
     (example_env [json_response 200 "application/json" devicelist_text])
     (Some input) w).2 = Ok (CreateEntry host input) ∧
  (async_step_user
     (example_env [json_response 200 "application/json" "{}"])
     (Some input) w).2 = Ok form ∧
  (async_step_user (example_env [Fails ClientError]) (Some input) w).2
    = Ok form.
Proof.
  intros w host input form.
  pose proof (fun env =>
    proj2 (setup_validation_outcomes env input host w eq_refl)) as H.
  split; [|split]; rewrite H; reflexivity.
Defined.

(** A turn of the filter switch of [AA] leaves the entry of [BB] and the
    other key of the entry of [AA] as they were. *)
Lemma switch_turn_frame_witness :
  let first := example_device "AA" "v1" "10.0.0.5" in
  let second := example_device "BB" "v1" "10.0.0.6" in
  let e := filter_switch first 0 in
  let env := example_env [json_response 200 "text/json" "1"] in
  let w := example_world [first; second]
             [ PDict (<[ "filterActive" := PInt 0 ]> {[ "rotSpeed" := PInt 1 ]});
               PDict {[ "filterActive" := PInt 0 ]} ]
             (<[ "AA" := 0%nat ]> {[ "BB" := 1%nat ]}) in
  let w' := (async_turn_on env (w, e)).1.1 in
  entry (data (coordinator w)) w' "BB" =
    Some (PDict {[ "filterActive" := PInt 0 ]}) ∧
  item (entry (data (coordinator w)) w' "AA") "rotSpeed" = Some (PInt 1).
Proof.
  intros first second e env w w'.
  assert (exclusive w e) as Hexcl.
  { intros m. simpl.
    destruct (decide (m = "AA")) as [->|Hm]; [done|].
    rewrite lookup_insert_ne by done.
    destruct (decide (m = "BB")) as [->|Hm'];
      [by rewrite lookup_singleton_eq|by rewrite lookup_singleton_ne]. }
  assert (entity_description e ∈ SWITCH_DESCRIPTIONS) as Hlisted.
  { apply elem_of_cons. by left. }
  destruct (switch_turn_changes_only_own_state_key env w e true
              Hlisted Hexcl) as (_ & Hothers & Hkeys & _).
  subst w'. split.
  - by rewrite (Hothers "BB").
  - etrans; [apply (Hkeys "rotSpeed"); done | reflexivity].
Defined.

(** * Further properties of the client *)

(** X1: a failure of the transport is classified by the first [except]
    clause that accepts it: [ClientError] and the builtin
    [ConnectionError] become [EheimDigitalConnectionError], a
    [TimeoutError] that is no [ClientError] becomes
    [EheimDigitalConnectionTimeout], and any other exception leaves
    [_send_request] as it is. *)
Theorem transport_failure_is_classified
    env method host endpoint data params w e :
  hub env (sent w) (mkRequest method host endpoint data params) = Fails e →
  (_send_request env method host endpoint data params w).2 =
    if is_ClientError e || is_ConnectionError e
    then Raised EheimDigitalConnectionError
    else if is_TimeoutError e
         then Raised EheimDigitalConnectionTimeout
         else Raised e.
Proof.
  intros Hhub.
  unfold _send_request, try_except, bind, session_request.
  rewrite Hhub; simpl.
  destruct (is_ClientError e); [done|].
  destruct (is_ConnectionError e); [done|].
  by destruct (is_TimeoutError e).
Qed.

Lemma transport_failure_witness :
  let ask outcome :=
    (_send_request (example_env [outcome]) "GET" (PStr "10.0.0.1")
       "devicelist" None None (example_world [] [] ∅)).2 in
  ask (Fails TimeoutError) = Raised EheimDigitalConnectionTimeout ∧
  ask (Fails ServerTimeoutError) = Raised EheimDigitalConnectionError ∧
  ask (Fails ConnectionError) = Raised EheimDigitalConnectionError ∧
  ask (Fails RuntimeError) = Raised RuntimeError.
Proof.
  intros ask.
  pose proof (fun e =>
    transport_failure_is_classified (example_env [Fails e]) "GET"
      (PStr "10.0.0.1") "devicelist" None None (example_world [] [] ∅) e
      eq_refl) as H.
  repeat split; apply H.
Defined.

(** X2: an answer whose status is below 400 and is not 200 (a 204, a
    201, a 304) makes [_send_request] return [None]: the body is not
    read and no error is raised. *)
Theorem other_status_below_400_returns_none
    env method host endpoint data params w r :
  hub env (sent w) (mkRequest method host endpoint data params) = Responds r →
  status r < 400 →
  status r ≠ 200 →
  (_send_request env method host endpoint data params w).2 = Ok PNone.
Proof.
  intros Hhub Hlt Hne.
  unfold _send_request, try_except, bind, session_request, raise_for_status.
  rewrite Hhub; simpl.
  destruct (400 <=? status r) eqn:E400; [lia|]. simpl.
  destruct (status r =? 404) eqn:E404; [lia|].
  destruct (status r =? 401) eqn:E401; [lia|].
  destruct (status r =? 403) eqn:E403; [lia|]. simpl.
  destruct (status r =? 200) eqn:E200; [lia|]. reflexivity.
Qed.

Lemma other_status_below_400_witness :
  (_send_request
     (example_env [Responds (mkResponse 204 ∅ "")]) "POST" (PStr "10.0.0.1")
     "professionel5e/active" (Some (PInt 1)) None (example_world [] [] ∅)).2
  = Ok PNone.
Proof.
  apply (other_status_below_400_returns_none
           (example_env [Responds (mkResponse 204 ∅ "")]) "POST"
           (PStr "10.0.0.1") "professionel5e/active" (Some (PInt 1)) None
           (example_world [] [] ∅) (mkResponse 204 ∅ ""));
    [reflexivity | simpl; lia | simpl; lia].
Defined.

(** X3: whatever the hub answers, [_send_request] raises neither
    [EheimDigitalNotFound] nor [EheimDigitalAuthError]; every status of
    400 and above ends in [EheimDigitalConnectionError]. *)
Theorem no_response_yields_not_found_or_auth_error
    env method host endpoint data params w r :
  hub env (sent w) (mkRequest method host endpoint data params) = Responds r →
  let returned := (_send_request env method host endpoint data params w).2 in
  returned ≠ Raised EheimDigitalNotFound ∧
  returned ≠ Raised EheimDigitalAuthError ∧
  (400 <= status r → returned = Raised EheimDigitalConnectionError).
Proof.
  intros Hhub returned. subst returned.
  destruct (Z_lt_ge_dec (status r) 400) as [Hlt|Hge].
  - split; [|split; [|lia]];
      unfold _send_request, try_except, bind, session_request,
        raise_for_status, response_json, response_text, loads, bind, ret,
        raise;
      rewrite Hhub; simpl;
      (destruct (400 <=? status r) eqn:E400; [lia|]); simpl;
      (destruct (status r =? 404) eqn:E404; [lia|]);
      (destruct (status r =? 401) eqn:E401; [lia|]);
      (destruct (status r =? 403) eqn:E403; [lia|]); simpl;
      repeat (case_match; simplify_eq/=; try done).
  - rewrite (send_request_error_status env _ _ _ _ _ _ r Hhub) by lia.
    by repeat split.
Qed.

Lemma no_not_found_or_auth_error_witness :
  let ask code :=
    (_send_request (example_env [Responds (mkResponse code ∅ "")]) "GET"
       (PStr "10.0.0.1") "devicelist" None None (example_world [] [] ∅)).2 in
  ask 401 = Raised EheimDigitalConnectionError ∧
  ask 403 = Raised EheimDigitalConnectionError ∧
  ask 500 = Raised EheimDigitalConnectionError.
Proof.
  intros ask.
  pose proof (fun code =>
    proj2 (proj2 (no_response_yields_not_found_or_auth_error
      (example_env [Responds (mkResponse code ∅ "")]) "GET"
      (PStr "10.0.0.1") "devicelist" None None (example_world [] [] ∅)
      (mkResponse code ∅ "") eq_refl))) as H.
  repeat split; apply H; simpl; lia.
Defined.

(** X4: a 200 answer under a JSON content type whose body the decoder
    rejects raises [JSONDecodeError], which none of the [except] clauses
    of [_send_request] takes and which is no client error. A blank body
    is rejected under [text/json] but gives [None] under
    [application/json]. *)
Theorem undecodable_body_raises_decode_error
    env method host endpoint data params w hdrs text :
  hub env (sent w) (mkRequest method host endpoint data params) =
    Responds (mkResponse 200 hdrs text) →
  let content_type := default "" (hdrs !! "Content-Type") in
  let returned := (_send_request env method host endpoint data params w).2 in
  (content_type = "text/json" → json_loads env text = None →
   returned = Raised JSONDecodeError) ∧
  (content_type = "application/json" → strip text ≠ "" →
   json_loads env (strip text) = None →
   returned = Raised JSONDecodeError) ∧
  (content_type = "application/json" → strip text = "" →
   returned = Ok PNone) ∧
  is_EheimDigitalError JSONDecodeError = false.
Proof.
  intros Hhub content_type returned. subst returned.
  unfold _send_request, try_except, bind, session_request, raise_for_status.
  rewrite Hhub; simpl. fold content_type.
  repeat split.
  - intros -> Hnone. simpl.
    unfold response_text, loads, bind, ret. by rewrite Hnone.
  - intros -> Hne Hnone. simpl. unfold response_json; simpl.
    destruct (strip text) eqn:E; [done|].
    unfold loads. by rewrite Hnone.
  - intros -> Hblank. simpl. unfold response_json; simpl. by rewrite Hblank.
Qed.

Lemma undecodable_body_witness :
  let ask content_type text :=
    (_send_request (example_env [json_response 200 content_type text]) "GET"
       (PStr "10.0.0.1") "devicelist" None None (example_world [] [] ∅)).2 in
  ask "text/json" "oops" = Raised JSONDecodeError ∧
  ask "application/json" "oops" = Raised JSONDecodeError ∧
  ask "text/json" " " = Raised JSONDecodeError ∧
  ask "application/json" " " = Ok PNone.
Proof.
  intros ask.
  pose proof (fun content_type text =>
    undecodable_body_raises_decode_error
      (example_env [json_response 200 content_type text]) "GET"
      (PStr "10.0.0.1") "devicelist" None None (example_world [] [] ∅)
      {[ "Content-Type" := content_type ]} text eq_refl) as H.
  split; [|split; [|split]].
  - exact (proj1 (H "text/json" "oops") eq_refl eq_refl).
  - apply (proj1 (proj2 (H "application/json" "oops")));
      [reflexivity | vm_compute; discriminate | reflexivity].
  - exact (proj1 (H "text/json" " ") eq_refl eq_refl).
  - exact (proj1 (proj2 (proj2 (H "application/json" " "))) eq_refl eq_refl).
Defined.

(** X5: the content type is compared as the whole header value. A 200
    answer whose header is neither [text/json] nor [application/json]
    (a missing header, or [application/json] with a charset parameter)
    is returned as its raw text, whatever the body, without the decoder
    being asked. *)
Theorem other_content_type_returns_raw_text
    env method host endpoint data params w hdrs text :
  hub env (sent w) (mkRequest method host endpoint data params) =
    Responds (mkResponse 200 hdrs text) →
  default "" (hdrs !! "Content-Type") ≠ "text/json" →
  default "" (hdrs !! "Content-Type") ≠ "application/json" →
  (_send_request env method host endpoint data params w).2 = Ok (PStr text).
Proof.
  intros Hhub Hne1 Hne2.
  unfold _send_request, try_except, bind, session_request, raise_for_status.
  rewrite Hhub; simpl.
  destruct (String.eqb_spec (default "" (hdrs !! "Content-Type")) "text/json")
    as [|_]; [done|].
  destruct (String.eqb_spec (default "" (hdrs !! "Content-Type"))
              "application/json") as [|_]; [done|].
  reflexivity.
Qed.

Lemma other_content_type_witness :
  let ask hdrs :=
    (_send_request (example_env [Responds (mkResponse 200 hdrs status_text)])
       "GET" (PStr "10.0.0.1") "professionel5e" None None
       (example_world [] [] ∅)).2 in
  ask ∅ = Ok (PStr status_text) ∧
  ask {[ "Content-Type" := "application/json; charset=utf-8" ]}
    = Ok (PStr status_text).
Proof.
  intros ask.
  pose proof (fun hdrs =>
    other_content_type_returns_raw_text
      (example_env [Responds (mkResponse 200 hdrs status_text)])
      "GET" (PStr "10.0.0.1") "professionel5e" None None
      (example_world [] [] ∅) hdrs status_text eq_refl) as H.
  split; apply H; vm_compute; discriminate.
Defined.

(** X6: each of the two commands issues exactly one request, whatever
    its outcome: a POST to the master host, never to the device's own
    address, at its fixed endpoint, with the mac under [to] and 1 or 0
    under [active]. The store, the coordinator and the state-changed log
    are as before. *)
Theorem commands_post_once_to_master env self device state w :
  let filter := (set_filter_state env self device state w).1 in
  let ph := (set_phcontrol_state env self device state w).1 in
  sent filter =
    (sent w ++ [command_request self "professionel5e/active" device state])%list ∧
  sent ph =
    (sent w ++ [command_request self "phcontrol/active" device state])%list ∧
  item (Some (active_payload device state)) "to" = Some (PStr (mac device)) ∧
  item (Some (active_payload device state)) "active"
    = Some (PInt (if state then 1 else 0)) ∧
  heap filter = heap w ∧ heap ph = heap w ∧
  coordinator filter = coordinator w ∧ coordinator ph = coordinator w ∧
  ha_writes filter = ha_writes w ∧ ha_writes ph = ha_writes w.
Proof.
  intros filter ph.
  assert (filter = (post env (_master_host_ip self) "professionel5e/active"
                      (active_payload device state) w).1) as ->.
  { subst filter. unfold set_filter_state, bind.
    by destruct (post _ _ _ _ _) as [w1 [v|x]]. }
  assert (ph = (post env (_master_host_ip self) "phcontrol/active"
                  (active_payload device state) w).1) as ->.
  { subst ph. unfold set_phcontrol_state, bind.
    by destruct (post _ _ _ _ _) as [w1 [v|x]]. }
  unfold post. rewrite !send_request_world. simpl.
  repeat split; done.
Qed.

(** X7: [fetch_devices] on a degenerate device list. When the
    [devicelist] request raises, so does [fetch_devices]; a document
    without the key [clientIPList] raises [KeyError]; a document that is
    no mapping (raw text, [None]) raises [TypeError]; an empty address
    list gives the empty device list. In every case no [userdata] request
    is issued. *)
Theorem fetch_devices_without_addresses env self w w0 outcome :
  get env (_master_host_ip self) "devicelist" None w = (w0, outcome) →
  match outcome with
  | Raised e => fetch_devices env self w = (w0, Raised e)
  | Ok (PDict m) =>
      match m !! "clientIPList" with
      | None => fetch_devices env self w = (w0, Raised KeyError)
      | Some (PList []) => fetch_devices env self w = (w0, Ok [])
      | Some PNone | Some (PBool _) | Some (PInt _) =>
          fetch_devices env self w = (w0, Raised TypeError)
      | Some _ => True
      end
  | Ok _ => fetch_devices env self w = (w0, Raised TypeError)
  end.
Proof.
  intros Hget. unfold fetch_devices, bind. rewrite Hget.
  destruct outcome as [[| | | | |m]|e]; simpl; try done.
  destruct (m !! "clientIPList") as [[| | | |[|a l]|]|]; simpl; done.
Qed.

Lemma fetch_devices_without_addresses_witness :
  let run outcome :=
    (fetch_devices (example_env [outcome]) example_master
       (example_world [] [] ∅)).2 in
  run (json_response 200 "application/json" "{}") = Raised KeyError ∧
  run (json_response 200 "text/plain" devicelist_text) = Raised TypeError ∧
  run (Responds (mkResponse 204 ∅ "")) = Raised TypeError ∧
  run (Fails TimeoutError) = Raised EheimDigitalConnectionTimeout.
Proof.
  intros run.
  pose proof (fun outcome =>
    fetch_devices_without_addresses (example_env [outcome]) example_master
      (example_world [] [] ∅)) as H.
  split; [|split; [|split]].
  - exact (f_equal snd (H (json_response 200 "application/json" "{}") _
                          (Ok (PDict ∅)) eq_refl)).
  - exact (f_equal snd (H (json_response 200 "text/plain" devicelist_text) _
                          (Ok (PStr devicelist_text)) eq_refl)).
  - exact (f_equal snd (H (Responds (mkResponse 204 ∅ "")) _ (Ok PNone)
                          eq_refl)).
  - exact (f_equal snd (H (Fails TimeoutError) _
                          (Raised EheimDigitalConnectionTimeout) eq_refl)).
Defined.

(** * Further properties of the poll cycle *)

Local Set Warnings "-clear-no-such-hyp".

Lemma update_loop_dom env client ds acc w w' snap :
  update_loop env client ds acc w = (w', Ok snap) →
  dom snap = dom acc ∪ list_to_set (mac <$> ds).
Proof.
  revert acc w. induction ds as [|d ds IH]; intros acc w.
  - intros [= _ <-]. simpl. set_solver.
  - rewrite update_loop_cons.
    destruct (get_device_data env client d w) as [w1 [doc|e]]; [|done].
    intros Hloop. rewrite (IH _ _ Hloop), dom_insert_L, fmap_cons. simpl.
    set_solver.
Qed.


(** X8: the snapshot a cycle returns is built afresh: its keys are
    exactly the macs of the coordinator's devices, whatever the published
    snapshot held. The cycle itself publishes nothing and signals
    nothing: the coordinator's attributes and the state-changed log are
    as before. *)
Theorem returned_snapshot_has_the_device_macs env w w' snap :
  _async_update_data env w = (w', Ok snap) →
  dom snap = list_to_set (mac <$> devices (coordinator w)) ∧
  coordinator w' = coordinator w ∧
  ha_writes w' = ha_writes w.
Proof.
  rewrite async_update_data_run.
  pose proof (update_loop_extends env (api_client (coordinator w))
                (devices (coordinator w)) ∅ w) as Hext.
  destruct (update_loop _ _ _ _ _) as [w1 [snap1|e]] eqn:Hloop.
  - intros [= <- <-]. destruct Hext as (_ & Hc & Hlog & _).
    split; [|done]. rewrite (update_loop_dom _ _ _ _ _ _ _ Hloop).
    rewrite dom_empty_L. set_solver.
  - by destruct (is_EheimDigitalError e).
Qed.

Lemma returned_snapshot_witness :
  let first := example_device "AA" "v1" "10.0.0.5" in
  let second := example_device "BB" "v2" "10.0.0.6" in
  let env := example_env [ json_response 200 "text/json" "1";
                           json_response 200 "text/json" "0" ] in
  let w := example_world [first; second] [PInt 0]
             (<[ "AA" := 0%nat ]> {[ "ZZ" := 0%nat ]}) in
  ∃ w' snap, _async_update_data env w = (w', Ok snap) ∧
             dom snap = {[ "AA"; "BB" ]} ∧
             data (coordinator w') = <[ "AA" := 0%nat ]> {[ "ZZ" := 0%nat ]}.
Proof.
  intros first second env w.
  destruct (_async_update_data env w) as [w' [snap|e]] eqn:Hrun;
    [|vm_compute in Hrun; discriminate].
  exists w', snap. split; [done|].
  destruct (returned_snapshot_has_the_device_macs env w w' snap Hrun)
    as (Hdom & Hc & _).
  split.
  - rewrite Hdom. reflexivity.
  - by rewrite Hc.
Defined.



(** X11: an exception of a device's fetch that is no client error (a
    [JSONDecodeError] of the answer, an error of the transport that no
    clause classifies) leaves the cycle as it is: it is not wrapped in
    [UpdateFailed], [last_update_success] is not cleared, and no later
    device is asked. *)
Theorem other_fetch_error_escapes_the_cycle
    env w pre d post w1 snap1 w2 e :
  let c := coordinator w in
  devices c = (pre ++ d :: post)%list →
  update_loop env (api_client c) pre ∅ w = (w1, Ok snap1) →
  get_device_data env (api_client c) d w1 = (w2, Raised e) →
  is_EheimDigitalError e = false →
  _async_update_data env w = (w2, Raised e) ∧
  coordinator w2 = c.
Proof.
  intros c Hds Hpre Hget Hother.
  pose proof (update_loop_extends env (api_client c) pre ∅ w) as Hext.
  rewrite Hpre in Hext. destruct Hext as (_ & Hc & _).
  pose proof (get_device_data_only_sent env (api_client c) d w1) as Hsent.
  rewrite Hget in Hsent. destruct Hsent as (_ & Hc' & _).
  rewrite async_update_data_run. fold c.
  rewrite Hds, update_loop_app, Hpre, update_loop_cons, Hget, Hother.
  simpl in *. split; [done|]. by rewrite Hc', Hc.
Qed.

Lemma other_fetch_error_witness :
  let first := example_device "AA" "v1" "10.0.0.5" in
  let second := example_device "BB" "v2" "10.0.0.6" in
  let env := example_env [json_response 200 "text/json" "oops"] in
  let w := example_world [first; second] [] ∅ in
  (_async_update_data env w).2 = Raised JSONDecodeError ∧
  last_update_success (coordinator (_async_update_data env w).1) = true ∧
  length (sent (_async_update_data env w).1) = 1%nat.
Proof.
  intros first second env w.
  destruct (other_fetch_error_escapes_the_cycle env w [] first [second] w ∅
              (get_device_data env example_master first w).1
              JSONDecodeError eq_refl eq_refl eq_refl eq_refl)
    as [Hrun Hc].
  rewrite Hrun. simpl. split; [done|]. split; [by rewrite Hc|done].
Defined.

(** * Further properties of the switches *)

(** X12: a turn that returns is read back by [is_on]: [True] after
    [async_turn_on], and [False] after an [async_turn_off] whose command
    returned. *)
Theorem is_on_reads_back_the_turn env w e w' e' :
  (async_turn_on env (w, e) = ((w', e'), Ok tt) →
   is_on (w', e') = ((w', e'), Ok true)) ∧
  ((command env false (w, e)).2 = Ok tt →
   async_turn_off env (w, e) = ((w', e'), Ok tt) →
   is_on (w', e') = ((w', e'), Ok false)).
Proof.
  split.
  - rewrite async_turn_on_run.
    destruct (set_state_fn _ _ _ _ _ _) as [w1 [[]|x]]; [|done].
    destruct (heap w1 !! _switch_data e) as [[| | | | |m]|] eqn:Hobj;
      simpl; try done.
    intros [= <- <-].
    unfold is_on, bind, self, world, deref, bind, get_state, ret; simpl.
    rewrite list_lookup_insert_eq by (by eapply lookup_lt_Some).
    simpl. by rewrite lookup_insert_eq.
  - rewrite command_run, async_turn_off_run.
    destruct (set_state_fn _ _ _ _ _ _) as [w1 [[]|x]]; [|done].
    intros _.
    destruct (heap w1 !! _switch_data e) as [[| | | | |m]|] eqn:Hobj;
      simpl; try done.
    intros [= <- <-].
    unfold is_on, bind, self, world, deref, bind, get_state, ret; simpl.
    rewrite list_lookup_insert_eq by (by eapply lookup_lt_Some).
    simpl. by rewrite lookup_insert_eq.
Qed.

Lemma is_on_reads_back_witness :
  let device := example_device "AA" "v1" "10.0.0.5" in
  let e := filter_switch device 0 in
  let env := example_env [json_response 200 "text/json" "1"] in
  let w := example_world [device] [PDict {[ "filterActive" := PInt 0 ]}]
             {[ "AA" := 0%nat ]} in
  let lit := example_world [device] [PDict {[ "filterActive" := PInt 1 ]}]
               {[ "AA" := 0%nat ]} in
  (is_on (w, e)).2 = Ok false ∧
  (is_on (async_turn_on env (w, e)).1).2 = Ok true ∧
  (is_on (async_turn_off env (async_turn_on env (w, e)).1).1).2 = Ok true ∧
  (is_on (lit, e)).2 = Ok true ∧
  (is_on (async_turn_off env (lit, e)).1).2 = Ok false.
Proof.
  intros device e env w lit. split; [reflexivity|].
  split; [|split; [reflexivity|split; [reflexivity|]]].
  - assert (async_turn_on env (w, e) = ((async_turn_on env (w, e)).1, Ok tt))
      as Hrun by reflexivity.
    destruct (async_turn_on env (w, e)).1 as [w' e'] eqn:Hstate.
    by rewrite (proj1 (is_on_reads_back_the_turn env w e w' e') Hrun).
  - assert (async_turn_off env (lit, e)
            = ((async_turn_off env (lit, e)).1, Ok tt)) as Hrun by reflexivity.
    destruct (async_turn_off env (lit, e)).1 as [w' e'] eqn:Hstate.
    by rewrite (proj2 (is_on_reads_back_the_turn env lit e w' e')
                  eq_refl Hrun).
Defined.

(** X13: turning a listed switch on a second time changes nothing more
    of the store. *)
Theorem turning_on_twice_is_turning_on_once env w e w1 e1 w2 e2 :
  entity_description e ∈ SWITCH_DESCRIPTIONS →
  async_turn_on env (w, e) = ((w1, e1), Ok tt) →
  async_turn_on env (w1, e1) = ((w2, e2), Ok tt) →
  heap w2 = heap w1 ∧ e2 = e.
Proof.
  intros Hlisted. rewrite !async_turn_on_run.
  pose proof (listed_command_only_sent env e true w Hlisted) as Hfirst.
  destruct (set_state_fn _ _ _ _ _ _) as [wa [[]|x]]; [|done].
  destruct Hfirst as (Ha & _). simpl in Ha.
  destruct (heap wa !! _switch_data e) as [[| | | | |m]|] eqn:Hobj;
    simpl; try done.
  intros [= <- <-].
  pose proof (listed_command_only_sent env e true
                (set_ha_writes
                   (fun log =>
                      (log ++ [(mac (_device e), key (entity_description e))])%list)
                   (set_heap
                      (fun h =>
                         <[ _switch_data e :=
                              PDict (<[ state_key (entity_description e)
                                        := PInt 1 ]> m) ]> h) wa))
                Hlisted) as Hsecond.
  destruct (set_state_fn _ _ _ _ _ _) as [wb [[]|x]]; [|done].
  destruct Hsecond as (Hb & _). simpl in Hb. rewrite Hb.
  rewrite list_lookup_insert_eq by (by eapply lookup_lt_Some).
  simpl. intros [= <- <-]. simpl. split; [|done].
  rewrite Hb, list_insert_insert_eq. by rewrite insert_insert_eq.
Qed.

Lemma turning_on_twice_witness :
  let device := example_device "AA" "v1" "10.0.0.5" in
  let e := filter_switch device 0 in
  let env := example_env [ json_response 200 "text/json" "1";
                           json_response 200 "text/json" "1" ] in
  let w := example_world [device] [PDict {[ "filterActive" := PInt 0 ]}]
             {[ "AA" := 0%nat ]} in
  heap (async_turn_on env (async_turn_on env (w, e)).1).1.1 =
  heap (async_turn_on env (w, e)).1.1.
Proof.
  intros device e env w.
  assert (entity_description e ∈ SWITCH_DESCRIPTIONS) as Hlisted.
  { apply elem_of_cons. by left. }
  destruct (async_turn_on env (w, e)) as [[w1 e1] r1] eqn:H1. simpl.
  destruct (async_turn_on env (w1, e1)) as [[w2 e2] r2] eqn:H2. simpl.
  assert (r1 = Ok tt) as -> by (by vm_compute in H1; injection H1 as _ _ <-).
  assert (r2 = Ok tt) as ->.
  { vm_compute in H1. injection H1 as <- <-.
    by vm_compute in H2; injection H2 as _ _ <-. }
  exact (proj1 (turning_on_twice_is_turning_on_once env w e w1 e1 w2 e2
                  Hlisted H1 H2)).
Defined.

(** X14: a coordinator update rebinds the switch to the entry the
    snapshot holds for its device and signals the change once; on a
    snapshot that keeps its documents apart the switch then shares its
    document with no other device. The update touches neither the store
    nor [_attr_available]: a switch marked unavailable stays so. When the
    snapshot has no entry for the device, [KeyError] is raised, the
    switch keeps its old reference and nothing is signalled. *)
Theorem coordinator_update_rebinds_the_switch w e :
  separate (data (coordinator w)) →
  (∀ l, data (coordinator w) !! mac (_device e) = Some l →
        ∃ w' e',
          _handle_coordinator_update (w, e) = ((w', e'), Ok tt) ∧
          _switch_data e' = l ∧ exclusive w' e' ∧
          _attr_available e' = _attr_available e ∧
          heap w' = heap w ∧ coordinator w' = coordinator w ∧
          ha_writes w' =
            (ha_writes w ++
             [(mac (_device e), key (entity_description e))])%list) ∧
  (data (coordinator w) !! mac (_device e) = None →
   _handle_coordinator_update (w, e) = ((w, e), Raised KeyError)).
Proof.
  intros Hsep.
  unfold _handle_coordinator_update, coordinator_data, async_write_ha_state,
    set_self, bind, self, world, bind, get_state, modify, ret; simpl.
  split.
  - intros l Hl. rewrite Hl. simpl. eexists _, _. split; [done|].
    simpl. repeat split; try done.
    intros m Hm. simpl in *. by eapply Hsep.
  - intros Hnone. by rewrite Hnone.
Qed.

Lemma coordinator_update_witness :
  let device := example_device "AA" "v1" "10.0.0.5" in
  let e := set_attr_available false (filter_switch device 0) in
  let w := example_world [device] [PInt 0; PInt 1] {[ "AA" := 1%nat ]} in
  (∃ w' e', _handle_coordinator_update (w, e) = ((w', e'), Ok tt) ∧
            _switch_data e' = 1%nat ∧ _attr_available e' = false) ∧
  _handle_coordinator_update (example_world [device] [PInt 0] ∅, e)
    = ((example_world [device] [PInt 0] ∅, e), Raised KeyError).
Proof.
  intros device e w.
  assert (∀ snap : gmap string nat, snap = ∅ ∨ snap = {[ "AA" := 1%nat ]} →
                                   separate snap) as Hsep.
  { intros snap [->| ->] m1 m2 l H1 H2.
    - by rewrite lookup_empty in H1.
    - apply lookup_singleton_Some in H1 as [<- _].
      by apply lookup_singleton_Some in H2 as [<- _]. }
  split.
  - destruct (proj1 (coordinator_update_rebinds_the_switch w e
                       (Hsep _ (or_intror eq_refl))) 1%nat eq_refl)
      as (w' & e' & Hrun & Hl & _ & Havail & _).
    by exists w', e'.
  - exact (proj2 (coordinator_update_rebinds_the_switch
                    (example_world [device] [PInt 0] ∅) e
                    (Hsep _ (or_introl eq_refl))) eq_refl).
Defined.

(** What [new_EheimSwitch] returns, and that it changes nothing. *)
Lemma new_EheimSwitch_run description device w :
  new_EheimSwitch description device w =
  (w, match data (coordinator w) !! mac device with
      | Some l => Ok {| entity_description := description; _switch_data := l;
                        _device := device; _attr_available := true |}
      | None => Raised KeyError
      end).
Proof.
  unfold new_EheimSwitch, coordinator_data, bind, get_state, ret. simpl.
  by destruct (data (coordinator w) !! mac device).
Qed.

Lemma switches_for_world device keys descriptions w :
  (switches_for device keys descriptions w).1 = w.
Proof.
  induction descriptions as [|description rest IH]; simpl; [done|].
  case_bool_decide; [|done].
  unfold bind. rewrite new_EheimSwitch_run.
  destruct (data (coordinator w) !! mac device); [|done].
  destruct (switches_for device keys rest w) as [w1 [more|x]]; by simpl in *.
Qed.

(** One turn of the loop of [async_setup_entry]. *)
Lemma setup_loop_cons d ds w :
  setup_loop (d :: ds) w =
  match switches_for d (default [] (SWITCH_SENSOR_GROUPS !! device_group d))
          SWITCH_DESCRIPTIONS w with
  | (w1, Ok here) =>
      match setup_loop ds w1 with
      | (w2, Ok more) => (w2, Ok (here ++ more)%list)
      | (w2, Raised x) => (w2, Raised x)
      end
  | (w1, Raised x) => (w1, Raised x)
  end.
Proof.
  change (setup_loop (d :: ds) w) with
    (bind (switches_for d
             (default [] (SWITCH_SENSOR_GROUPS !! device_group d))
             SWITCH_DESCRIPTIONS)
       (fun here => bind (setup_loop ds)
                      (fun more => ret (here ++ more)%list)) w).
  unfold bind.
  destruct (switches_for d _ SWITCH_DESCRIPTIONS w) as [w1 [here|x]]; [|done].
  by destruct (setup_loop ds w1) as [w2 [more|x]].
Qed.

Lemma setup_loop_world ds w : (setup_loop ds w).1 = w.
Proof.
  induction ds as [|d ds IH]; [done|].
  rewrite setup_loop_cons.
  pose proof (switches_for_world d
                (default [] (SWITCH_SENSOR_GROUPS !! device_group d))
                SWITCH_DESCRIPTIONS w) as Hw.
  destruct (switches_for d _ SWITCH_DESCRIPTIONS w) as [w1 [here|x]];
    simpl in Hw; subst w1; [|done].
  by destruct (setup_loop ds w) as [w2 [more|x]].
Qed.

(** The switches made for one device, by descriptions taken from a
    list. *)
Lemma switches_for_made device keys descriptions w w' switches :
  switches_for device keys descriptions w = (w', Ok switches) →
  Forall (fun e =>
            entity_description e ∈ descriptions ∧
            key (entity_description e) ∈ keys ∧
            _device e = device ∧
            data (coordinator w) !! mac device = Some (_switch_data e) ∧
            _attr_available e = true) switches.
Proof.
  revert switches. induction descriptions as [|description rest IH];
    intros switches; simpl.
  - by intros [= _ <-].
  - case_bool_decide as Hkey.
    + unfold bind. rewrite new_EheimSwitch_run.
      destruct (data (coordinator w) !! mac device) as [l|] eqn:Hl; [|done].
      pose proof (switches_for_world device keys rest w) as Hw.
      destruct (switches_for device keys rest w) as [w1 [more|x]] eqn:Hrest;
        [|done].
      simpl in Hw; subst w1. intros [= <- <-]. constructor.
      * simpl. repeat split; try done. by left.
      * eapply Forall_impl; [by apply IH|].
        intros e (? & ? & ? & ? & ?). repeat split; try done. by right.
    + intros Hrest. eapply Forall_impl; [by apply IH|].
      intros e (? & ? & ? & ? & ?). repeat split; try done. by right.
Qed.

(** X15: every switch [async_setup_entry] makes is one of the two
    listed kinds, chosen by the group of its device, belongs to a device
    of the coordinator, points at the entry the snapshot holds for that
    device and starts available. Setting up changes nothing of the
    world. *)
Theorem setup_makes_listed_switches_of_the_snapshot w w' switches :
  async_setup_entry w = (w', Ok switches) →
  w' = w ∧
  Forall (fun e =>
            entity_description e ∈ SWITCH_DESCRIPTIONS ∧
            key (entity_description e) ∈
              default [] (SWITCH_SENSOR_GROUPS !! device_group (_device e)) ∧
            _device e ∈ devices (coordinator w) ∧
            data (coordinator w) !! mac (_device e) = Some (_switch_data e) ∧
            _attr_available e = true) switches.
Proof.
  unfold async_setup_entry, bind, get_state. simpl.
  intros Hrun. split.
  { pose proof (setup_loop_world (devices (coordinator w)) w) as Hw.
    by rewrite Hrun in Hw. }
  assert (∀ ds w1 made,
            setup_loop ds w = (w1, Ok made) →
            Forall (fun e =>
              entity_description e ∈ SWITCH_DESCRIPTIONS ∧
              key (entity_description e) ∈
                default [] (SWITCH_SENSOR_GROUPS !! device_group (_device e)) ∧
              _device e ∈ ds ∧
              data (coordinator w) !! mac (_device e) = Some (_switch_data e) ∧
              _attr_available e = true) made) as Hloop.
  { induction ds as [|d ds IH]; intros w1 made.
    - by intros [= _ <-].
    - rewrite setup_loop_cons.
      pose proof (switches_for_world d
                    (default [] (SWITCH_SENSOR_GROUPS !! device_group d))
                    SWITCH_DESCRIPTIONS w) as Hw.
      destruct (switches_for d _ SWITCH_DESCRIPTIONS w)
        as [w2 [here|x]] eqn:Hhere; [|done].
      simpl in Hw; subst w2.
      destruct (setup_loop ds w) as [w3 [more|x]] eqn:Hmore; [|done].
      intros [= _ <-]. apply Forall_app. split.
      + eapply Forall_impl; [by eapply switches_for_made|].
        intros e (? & ? & -> & ? & ?). repeat split; try done. by left.
      + eapply Forall_impl; [by eapply IH|].
        intros e (? & ? & ? & ? & ?). repeat split; try done. by right. }
  by eapply Hloop.
Qed.

Lemma setup_makes_listed_switches_witness :
  let first := example_device "AA" "v1" "10.0.0.5" in
  let w := example_world [first] [PInt 0] {[ "AA" := 0%nat ]} in
  ∃ switches,
    async_setup_entry w = (w, Ok switches) ∧
    Forall (fun e => entity_description e ∈ SWITCH_DESCRIPTIONS ∧
                     _attr_available e = true) switches.
Proof.
  intros first w.
  destruct (async_setup_entry w) as [w' [switches|x]] eqn:Hrun;
    [|vm_compute in Hrun; discriminate].
  destruct (setup_makes_listed_switches_of_the_snapshot w w' switches Hrun)
    as [-> Hall].
  exists switches. split; [done|].
  eapply Forall_impl; [exact Hall|]. by intros e (? & _ & _ & _ & ?).
Defined.

(** The keys [SWITCH_SENSOR_GROUPS] gives for a group. *)
Lemma switch_keys_of_group g :
  default [] (SWITCH_SENSOR_GROUPS !! g) =
  if bool_decide (g = "ph_control") then ["ph_control_is_active"]
  else if bool_decide (g = "filter") then ["filter_is_active"]
  else [].
Proof.
  unfold SWITCH_SENSOR_GROUPS.
  case_bool_decide as Hph; [by subst|].
  rewrite lookup_insert_ne by done.
  case_bool_decide as Hfilter; [by subst|].
  by rewrite lookup_insert_ne, lookup_empty.
Qed.

(** The switches made for one device: one for a device of the group
    [filter] or [ph_control], none for any other. *)
Lemma switches_for_device d w :
  switches_for d (default [] (SWITCH_SENSOR_GROUPS !! device_group d))
    SWITCH_DESCRIPTIONS w =
  (w, if has_switch d
      then match data (coordinator w) !! mac d with
           | Some l =>
               Ok [ {| entity_description :=
                         if bool_decide (device_group d = "filter")
                         then default (filter_switch d l).(entity_description)
                                (SWITCH_DESCRIPTIONS !! 0%nat)
                         else default (filter_switch d l).(entity_description)
                                (SWITCH_DESCRIPTIONS !! 1%nat);
                       _switch_data := l; _device := d;
                       _attr_available := true |} ]
           | None => Raised KeyError
           end
      else Ok []).
Proof.
  rewrite switch_keys_of_group. unfold has_switch, SWITCH_DESCRIPTIONS.
  destruct (decide (device_group d = "ph_control")) as [Hph|Hph].
  - rewrite (bool_decide_eq_true_2 _ Hph).
    rewrite bool_decide_eq_false_2 by (rewrite Hph; discriminate).
    simpl. unfold bind. rewrite new_EheimSwitch_run.
    by destruct (data (coordinator w) !! mac d).
  - rewrite (bool_decide_eq_false_2 _ Hph).
    destruct (decide (device_group d = "filter")) as [Hf|Hf].
    + rewrite (bool_decide_eq_true_2 _ Hf).
      simpl. unfold bind. rewrite new_EheimSwitch_run.
      by destruct (data (coordinator w) !! mac d).
    + by rewrite (bool_decide_eq_false_2 _ Hf).
Qed.

Lemma setup_loop_devices ds w w' switches :
  setup_loop ds w = (w', Ok switches) →
  _device <$> switches = List.filter has_switch ds.
Proof.
  revert switches. induction ds as [|d ds IH]; intros switches.
  - by intros [= _ <-].
  - rewrite setup_loop_cons, switches_for_device. simpl.
    destruct (has_switch d).
    + destruct (data (coordinator w) !! mac d) as [l|]; [|done].
      destruct (setup_loop ds w) as [w1 [more|x]] eqn:Hmore; [|done].
      intros [= <- <-]. simpl. f_equal.
      pose proof (setup_loop_world ds w) as Hw. rewrite Hmore in Hw.
      simpl in Hw; subst w1. by apply IH.
    + destruct (setup_loop ds w) as [w1 [more|x]] eqn:Hmore; [|done].
      intros [= <- <-]. simpl.
      pose proof (setup_loop_world ds w) as Hw. rewrite Hmore in Hw.
      simpl in Hw; subst w1. by apply IH.
Qed.

Lemma setup_loop_missing_entry pre d post w :
  Forall (fun d' => has_switch d' = true →
                    is_Some (data (coordinator w) !! mac d')) pre →
  has_switch d = true →
  data (coordinator w) !! mac d = None →
  setup_loop (pre ++ d :: post) w = (w, Raised KeyError).
Proof.
  intros Hpre Hd Hnone. induction Hpre as [|d' pre Hd' _ IH]; simpl app.
  - rewrite setup_loop_cons, switches_for_device. by rewrite Hd, Hnone.
  - rewrite setup_loop_cons, switches_for_device.
    destruct (has_switch d') eqn:Hs.
    + destruct (Hd' eq_refl) as [l ->]. simpl. by rewrite IH.
    + simpl. by rewrite IH.
Qed.

(** X16: a setup that returns has made exactly one switch for each
    device of the group [filter] or [ph_control], in the order of the
    device list, and none for a device of any other group. When a device
    of one of the two groups has no entry in the snapshot (and those
    before it have theirs), the setup raises [KeyError] and makes no
    switch at all. *)
Theorem setup_makes_one_switch_per_grouped_device w :
  (∀ w' switches,
     async_setup_entry w = (w', Ok switches) →
     _device <$> switches = List.filter has_switch (devices (coordinator w))) ∧
  (∀ pre d post,
     devices (coordinator w) = (pre ++ d :: post)%list →
     Forall (fun d' => has_switch d' = true →
                       is_Some (data (coordinator w) !! mac d')) pre →
     has_switch d = true →
     data (coordinator w) !! mac d = None →
     async_setup_entry w = (w, Raised KeyError)).
Proof.
  unfold async_setup_entry, bind, get_state. simpl. split.
  - intros w' switches. apply setup_loop_devices.
  - intros pre d post -> Hpre Hd Hnone. by apply setup_loop_missing_entry.
Qed.

Lemma setup_one_switch_per_grouped_device_witness :
  let filter := example_device "AA" "v1" "10.0.0.5" in
  let other := {| title := ""; mac := "BB"; ip := PStr "10.0.0.6"; name := "";
                  aq_name := ""; mode := ""; version := "v3";
                  model := "heater"; device_group := "heater" |} in
  let second := example_device "CC" "v1" "10.0.0.7" in
  (∃ switches,
     async_setup_entry
       (example_world [filter; other] [PInt 0] {[ "AA" := 0%nat ]})
       = (example_world [filter; other] [PInt 0] {[ "AA" := 0%nat ]},
          Ok switches) ∧
     _device <$> switches = [filter]) ∧
  async_setup_entry
    (example_world [filter; other; second] [PInt 0] {[ "AA" := 0%nat ]})
    = (example_world [filter; other; second] [PInt 0] {[ "AA" := 0%nat ]},
       Raised KeyError).
Proof.
  intros filter other second. split.
  - destruct (async_setup_entry
                (example_world [filter; other] [PInt 0] {[ "AA" := 0%nat ]}))
      as [w' [switches|x]] eqn:Hrun; [|vm_compute in Hrun; discriminate].
    exists switches. split.
    + vm_compute in Hrun. injection Hrun as <- <-. reflexivity.
    + by rewrite (proj1 (setup_makes_one_switch_per_grouped_device _)
                    w' switches Hrun).
  - apply (proj2 (setup_makes_one_switch_per_grouped_device
                    (example_world [filter; other; second] [PInt 0]
                       {[ "AA" := 0%nat ]}))
             [filter; other] second []); [done| |done|done].
    repeat constructor; [by eexists|discriminate].
Defined.

(** * Further properties of the setup flow *)

(** A mapping with a key, and a text with a character, are truthy. *)
Lemma nonempty_document_truthy doc :
  (∃ m k v, doc = PDict m ∧ m !! k = Some v) ∨
  (∃ c s, doc = PStr (String c s)) →
  truthy doc = true.
Proof.
  intros [(m & k & v & -> & Hk)|(c & s & ->)]; [|done].
  simpl. destruct (size m) eqn:Hsize; [|done].
  apply map_size_empty_iff in Hsize. subst m.
  by rewrite lookup_empty in Hk.
Qed.

(** X17: the validation tests the fetched document, not the address
    list in it. A host that answers with a mapping holding any key (a
    device list with no address among them) or with any non-empty text
    passes, and the flow creates the entry; [fetch_devices] on the same
    answer then finds no device. *)
Theorem validation_passes_on_any_nonempty_answer env input host w w1 doc :
  input !! CONF_IP_ADDRESS = Some host →
  get env host "devicelist" None w = (w1, Ok doc) →
  (∃ m k v, doc = PDict m ∧ m !! k = Some v) ∨
  (∃ c s, doc = PStr (String c s)) →
  _test_host_connection env host w = (w1, Ok tt) ∧
  async_step_user env (Some input) w = (w1, Ok (CreateEntry host input)) ∧
  (item (Some doc) "clientIPList" = Some (PList []) →
   fetch_devices env (mkClient host) w = (w1, Ok [])).
Proof.
  intros Hhost Hget Hdoc.
  pose proof (nonempty_document_truthy doc Hdoc) as Htruthy.
  split; [|split].
  - unfold _test_host_connection, bind. by rewrite Hget, Htruthy.
  - unfold async_step_user, try_except, bind, subscript,
      _test_host_connection, bind.
    unfold CONF_IP_ADDRESS in *. rewrite Hhost. simpl. rewrite Hget. simpl.
    by rewrite Htruthy.
  - intros Hlist. unfold fetch_devices, bind.
    change (_master_host_ip (mkClient host)) with host. rewrite Hget.
    destruct doc as [| | | | |m]; try done. simpl in Hlist.
    simpl. by rewrite Hlist.
Qed.

Lemma validation_passes_witness :
  let env := {| hub := scripted
                  [json_response 200 "application/json" no_devices_text];
                json_loads := no_devices_loads;
                DEVICE_ENDPOINTS := ∅ |} in
  let host := PStr "10.0.0.1" in
  let input : gmap string pyval := {[ CONF_IP_ADDRESS := host ]} in
  let w := example_world [] [] ∅ in
  (async_step_user env (Some input) w).2 = Ok (CreateEntry host input) ∧
  (fetch_devices env (mkClient host) w).2 = Ok [].
Proof.
  intros env host input w.
  destruct (validation_passes_on_any_nonempty_answer env input host w
              (get env host "devicelist" None w).1
              (PDict {[ "clientIPList" := PList [] ]}) eq_refl eq_refl)
    as (_ & Hflow & Hfetch).
  { left. by exists {[ "clientIPList" := PList [] ]}, "clientIPList", (PList []). }
  split.
  - by rewrite Hflow.
  - by rewrite (Hfetch eq_refl).
Defined.
